(** * The LLM wrapper of langchainjs: cached batch generation, run
    notifications, (de)serialisation and the single-prompt adapter.

    The development follows [llms/base.ts] ([BaseLLM] and [LLM]) and the
    handler declarations of [callbacks/base.ts].  Asynchronous code is
    embedded with explicit state passing: a world holding the cache
    object, the backend's state, the log of external interactions and the
    supply of run identifiers. *)

From stdpp Require Import base option list strings gmap pretty sorting.
From Stdlib Require Import ZArith Lia.

Set Warnings "-register-all".
Open Scope string_scope.

(** ** JavaScript values and their string conversion *)

Module Js.

(** The values that occur as parameters of a model.  Numbers are the
    integers below 10^21 in absolute value, whose [String(n)] is the plain
    decimal numeral. *)
Inductive JsVal : Type :=
| JUndefined
| JNull
| JBool (b : bool)
| JNum (z : Z)
| JStr (s : string)
| JArr (elems : list JsVal)
| JObj (props : list (string * JsVal)).

(** [Array.prototype.join]: elements separated by [sep]. *)
Fixpoint join (sep : string) (parts : list string) : string :=
  match parts with
  | [] => ""
  | [p] => p
  | p :: rest => p ++ sep ++ join sep rest
  end.

(** [String(v)].  Inside [Array.prototype.toString] an element that is
    [undefined] or [null] is printed as the empty string. *)
Fixpoint toString (v : JsVal) : string :=
  match v with
  | JUndefined => "undefined"
  | JNull => "null"
  | JBool true => "true"
  | JBool false => "false"
  | JNum z => pretty z
  | JStr s => s
  | JArr elems =>
      join "," (List.map (fun e => match e with
                                   | JUndefined | JNull => ""
                                   | _ => toString e
                                   end) elems)
  | JObj _ => "[object Object]"
  end.

(** The conversion of an array element, as [join] applies it. *)
Definition elemToString (e : JsVal) : string :=
  match e with
  | JUndefined | JNull => ""
  | _ => toString e
  end.

(** Two values that print alike, on their own and as array elements. *)
Definition same_text (x y : JsVal) : Prop :=
  toString x = toString y /\ elemToString x = elemToString y.

(** A plain object: its own properties in insertion order, keys unique. *)
Definition Obj : Type := list (string * JsVal).

(** [o[k] = v]: an existing key keeps its place, a new key goes last. *)
Fixpoint set (k : string) (v : JsVal) (o : Obj) : Obj :=
  match o with
  | [] => [(k, v)]
  | (k', v') :: o' =>
      if String.eqb k k' then (k, v) :: o' else (k', v') :: set k v o'
  end.

(** [Object.entries(o)]: the array of two-element arrays [[k, v]]. *)
Definition entries (o : Obj) : list JsVal :=
  List.map (fun kv => JArr [JStr (fst kv); snd kv]) o.

(** Code-unit order of strings, the order of the default comparator. *)
Definition str_le (a b : string) : bool :=
  match String.compare a b with
  | Gt => false
  | _ => true
  end.

Fixpoint insert_sorted (x : JsVal) (sorted : list JsVal) : list JsVal :=
  match sorted with
  | [] => [x]
  | y :: rest =>
      if str_le (toString x) (toString y) then x :: y :: rest
      else y :: insert_sorted x rest
  end.

(** [arr.sort()] without a comparator: elements are ordered by their
    string conversions; the sort is stable. *)
Definition sort (arr : list JsVal) : list JsVal :=
  List.fold_right insert_sorted [] arr.

End Js.

Import Js.

(** ** Data model *)

(** Modelled from the spec: the declarations of [schema/index.ts] are
    not among the sources.  A candidate generation has at least a text
    field. *)
Record Generation : Type := mkGeneration {
  text : string;
  generationInfo : option Obj
}.

Definition RunId : Type := nat.

(** The [__run] field of a result. *)
Record RunInfo : Type := mkRunInfo { info_runId : RunId }.

(** Modelled from the spec: [LLMResult], an ordered sequence of
    per-prompt candidate lists, an open metadata map and optional
    run-correlation metadata.  The slot type is [list Generation] for a
    backend's result; the result assembled on the cached path has slots of
    type [option (list Generation)], [None] being the [null] of a miss. *)
Record LLMResultOf (slot : Type) : Type := mkLLMResult {
  generations : list slot;
  llmOutput : option Obj;
  __run : option RunInfo
}.
Arguments mkLLMResult {slot} _ _ _.
Arguments generations {slot} _.
Arguments llmOutput {slot} _.
Arguments __run {slot} _.

Definition LLMResult : Type := LLMResultOf (list Generation).
Abbreviation Slot := (option (list Generation)).

(** Thrown values. *)
Inductive Exn : Type :=
| JsError (message : string)
| JsTypeError (message : string)
| JsThrown (v : JsVal).

Inductive Outcome (A : Type) : Type :=
| Ok (a : A)
| Throw (e : Exn).
Arguments Ok {A} a.
Arguments Throw {A} e.

(** ** Serialisation and the cache key *)

Definition _modelType : string := "base_llm".

(** [serialize()]: the identifying parameters, then [_type] and [_model]. *)
Definition serialize (identifyingParams : Obj) (llmType : string) : Obj :=
  set "_model" (JStr _modelType)
    (set "_type" (JStr llmType) identifyingParams).

Definition stopValue (stop : option (list string)) : JsVal :=
  match stop with
  | None => JUndefined
  | Some l => JArr (List.map JStr l)
  end.

(** [params.stop = stop; `${Object.entries(params).sort()}`]. *)
Definition llmStringKey (identifyingParams : Obj) (llmType : string)
    (stop : option (list string)) : string :=
  let params := set "stop" (stopValue stop)
                  (serialize identifyingParams llmType) in
  toString (JArr (sort (entries params))).

(** ** Notification handlers ([callbacks/base.ts]) *)

Record BaseCallbackHandlerInput : Type := mkHandlerInput {
  in_ignoreLLM : option bool;
  in_ignoreChain : option bool;
  in_ignoreAgent : option bool
}.

Record BaseCallbackHandler : Type := mkHandler {
  handler_name : string;
  ignoreLLM : bool;
  ignoreChain : bool;
  ignoreAgent : bool
}.

(** The constructor: each flag is [input.flag ?? false]. *)
Definition newHandler (nm : string) (input : option BaseCallbackHandlerInput)
    : BaseCallbackHandler :=
  match input with
  | None => mkHandler nm false false false
  | Some i =>
      mkHandler nm (default false (in_ignoreLLM i))
                   (default false (in_ignoreChain i))
                   (default false (in_ignoreAgent i))
  end.

(** Modelled from the spec: the coordinator, a set of handlers and the
    identifier of the parent run, if any. *)
Record CallbackManager : Type := mkManager {
  handlers : list BaseCallbackHandler;
  parentRunId : option RunId
}.

(** The handle of one LLM run. *)
Record CallbackManagerForLLMRun : Type := mkRun {
  runId : RunId;
  run_handlers : list BaseCallbackHandler;
  run_parent : option RunId
}.

(** The [callbacks] argument and field: a manager or an array of handlers. *)
Inductive Callbacks : Type :=
| ByManager (m : CallbackManager)
| ByHandlers (hs : list BaseCallbackHandler).

(** [Array.isArray(this.callbacks) ? this.callbacks
                                   : this.callbacks?.handlers]. *)
Definition inheritedHandlers (cbs : option Callbacks)
    : option (list BaseCallbackHandler) :=
  match cbs with
  | Some (ByHandlers hs) => Some hs
  | Some (ByManager m) => Some (handlers m)
  | None => None
  end.

(** ** The cache port *)

(** Modelled from the spec: the cache port [BaseCache], whose declaration
    is not among the sources.  [lookup] answers a candidate list or
    [null]; [update] stores one.  Both are taken to succeed.  The prompt
    of an update is [None] when the caller passes [undefined]. *)
Class BaseCache (C : Type) : Type := {
  cache_lookup : C -> string -> string -> option (list Generation);
  cache_update : C -> option string -> string -> list Generation -> C
}.

(** Modelled from the spec: a cache keyed on the pair of prompt text and
    serialized-parameters string. *)
#[export] Instance MapCache
    : BaseCache (gmap (option string * string) (list Generation)) := {
  cache_lookup c prompt key := c !! (Some prompt, key);
  cache_update c prompt key value := <[(prompt, key) := value]> c
}.

(** ** External interactions *)

Inductive Event : Type :=
| EvLookup (prompt key : string)
| EvUpdate (prompt : option string) (key : string) (value : list Generation)
| EvGenerate (prompts : list string) (stop : option (list string))
             (run : option CallbackManagerForLLMRun)
| EvLLMStart (run : RunId) (llm_name : string) (prompts : list string)
| EvLLMError (run : RunId) (err : Exn)
| EvLLMEnd (run : RunId) (output : LLMResult).

Definition is_start_of (r : RunId) (e : Event) : bool :=
  match e with EvLLMStart r' _ _ => Nat.eqb r r' | _ => false end.

Definition is_error_of (r : RunId) (e : Event) : bool :=
  match e with EvLLMError r' _ => Nat.eqb r r' | _ => false end.

Definition is_end_of (r : RunId) (e : Event) : bool :=
  match e with EvLLMEnd r' _ => Nat.eqb r r' | _ => false end.

Definition is_terminal_of (r : RunId) (e : Event) : bool :=
  is_error_of r e || is_end_of r e.

Definition is_notification (e : Event) : bool :=
  match e with
  | EvLLMStart _ _ _ | EvLLMError _ _ | EvLLMEnd _ _ => true
  | _ => false
  end.

(** The prompt batches handed to the backend, in order of invocation. *)
Definition backend_calls (l : list Event) : list (list string) :=
  omap (fun e => match e with EvGenerate ps _ _ => Some ps | _ => None end) l.

(** The cache writes, in order of invocation. *)
Definition cache_writes (l : list Event)
    : list (option string * string * list Generation) :=
  omap (fun e => match e with
                 | EvUpdate p k v => Some (p, k, v)
                 | _ => None
                 end) l.

(** The [prompts] argument at run time: the declared [string[]], or any
    value that is not an array. *)
Inductive NotArray : Type :=
| NAUndefined
| NANull
| NABool (b : bool)
| NANum (z : Z)
| NAStr (s : string)
| NAObj (o : Obj).

Inductive PromptsArg : Type :=
| Prompts (ps : list string)
| Malformed (v : NotArray).

Definition Array_isArray (a : PromptsArg) : bool :=
  match a with Prompts _ => true | Malformed _ => false end.

(** ** The orchestrator: [BaseLLM] *)

Section Orchestrator.

Context {C : Type} `{BaseCache C} {B : Type}.

(** [CallbackManager.configure] ([callbacks/manager.ts]), taken as given:
    from the call's callbacks, the instance's handlers and the verbosity
    it answers a manager or [undefined]. *)
Variable configure :
  option Callbacks -> option (list BaseCallbackHandler) -> bool ->
  option CallbackManager.

(** What a call can touch: the cache object of the instance ([None] when
    [this.cache] is [undefined]), the backend's own state, the log of
    interactions and the supply of run identifiers. *)
Record World : Type := mkWorld {
  cache : option C;
  backend : B;
  log : list Event;
  nextRunId : RunId
}.

(** An instance: its fields and its abstract methods. *)
Record BaseLLM : Type := mkBaseLLM {
  name : string;
  callbacks : option Callbacks;
  verbose : bool;
  _identifyingParams : Obj;
  _llmType : string;
  _generate : list string -> option (list string) ->
              option CallbackManagerForLLMRun -> B -> Outcome LLMResult * B
}.

(** Computations: state passing over the world, with thrown values. *)
Definition M (A : Type) : Type := World -> Outcome A * World.

Definition ret {A} (a : A) : M A := fun w => (Ok a, w).

Definition throw {A} (e : Exn) : M A := fun w => (Throw e, w).

Definition bind {A A'} (m : M A) (k : A -> M A') : M A' :=
  fun w => match m w with
           | (Ok a, w') => k a w'
           | (Throw e, w') => (Throw e, w')
           end.

(** [try { m } catch (err) { h err }]. *)
Definition try_catch {A} (m : M A) (h : Exn -> M A) : M A :=
  fun w => match m w with
           | (Ok a, w') => (Ok a, w')
           | (Throw e, w') => h e w'
           end.

Notation "x <- m ;; k" := (bind m (fun x => k))
  (at level 60, m at next level, right associativity).
Notation "m ;;; k" := (bind m (fun _ => k))
  (at level 60, right associativity).

Definition emit (e : Event) : M unit :=
  fun w => (Ok tt, mkWorld (cache w) (backend w) (log w ++ [e]) (nextRunId w)).

(** [uuidv4()]: an identifier not handed out before. *)
Definition freshRunId : M RunId :=
  fun w => (Ok (nextRunId w),
            mkWorld (cache w) (backend w) (log w) (S (nextRunId w))).

(** Modelled from the spec: the notification coordinator's three LLM
    emissions, whose code ([callbacks/manager.ts]) is not among the
    sources.  An emission is a notification that does not fail; it is
    recorded with its run identifier.  The start emission draws the run
    identifier and answers the handle of the run. *)
Definition handleLLMStart (m : CallbackManager) (llm_name : string)
    (prompts : list string) : M CallbackManagerForLLMRun :=
  r <- freshRunId ;;
  emit (EvLLMStart r llm_name prompts) ;;;
  ret (mkRun r (handlers m) (parentRunId m)).

Definition handleLLMError (run : CallbackManagerForLLMRun) (err : Exn)
    : M unit :=
  emit (EvLLMError (runId run) err).

Definition handleLLMEnd (run : CallbackManagerForLLMRun) (output : LLMResult)
    : M unit :=
  emit (EvLLMEnd (runId run) output).

(** [await this._generate(prompts, stop, runManager)]. *)
Definition call_generate (this : BaseLLM) (prompts : list string)
    (stop : option (list string)) (run : option CallbackManagerForLLMRun)
    : M LLMResult :=
  emit (EvGenerate prompts stop run) ;;;
  fun w => let '(r, b) := _generate this prompts stop run (backend w) in
           (r, mkWorld (cache w) b (log w) (nextRunId w)).

(** [_generateUncached]. *)
Definition _generateUncached (this : BaseLLM) (prompts : list string)
    (stop : option (list string)) (cbs : option Callbacks) : M LLMResult :=
  let callbackManager_ :=
    configure cbs (inheritedHandlers (callbacks this)) (verbose this) in
  runManager <- match callbackManager_ with
                | Some m => r <- handleLLMStart m (_llmType this) prompts ;;
                            ret (Some r)
                | None => ret None
                end ;;
  output <- try_catch (call_generate this prompts stop runManager)
              (fun err =>
                 match runManager with
                 | Some r => handleLLMError r err
                 | None => ret tt
                 end ;;;
                 throw err) ;;
  match runManager with
  | Some r => handleLLMEnd r output
  | None => ret tt
  end ;;;
  ret (mkLLMResult (generations output) (llmOutput output)
         (match runManager with
          | Some r => Some (mkRunInfo (runId r))
          | None => None
          end)).

(** [await cache.lookup(prompt, llmStringKey)], for each prompt in index
    order: all lookups are started before any of them settles. *)
Fixpoint lookupAll (c : C) (key : string) (prompts : list string)
    : M (list Slot) :=
  match prompts with
  | [] => ret []
  | prompt :: rest =>
      emit (EvLookup prompt key) ;;;
      results <- lookupAll c key rest ;;
      ret (cache_lookup c prompt key :: results)
  end.

(** [missingPromptIndices].  [prompts.map(async ...)] starts the
    callbacks in index order; each is suspended at its
    [await cache.lookup(...)] and resumes when that lookup settles, and
    only then pushes its index if the answer is [null].  So the array
    holds the indices of the misses in the order [settled] in which the
    lookups of the batch settle. *)
Definition missingPromptIndices (results : list Slot) (settled : list nat)
    : list nat :=
  List.filter (fun index => match results !! index with
                            | Some None => true
                            | _ => false
                            end) settled.

(** [cache.update(prompt, llmStringKey, generation)]. *)
Definition updateCache (prompt : option string) (key : string)
    (generation : list Generation) : M unit :=
  emit (EvUpdate prompt key generation) ;;;
  fun w => (Ok tt,
            mkWorld (option_map (fun c => cache_update c prompt key generation)
                       (cache w))
                    (backend w) (log w) (nextRunId w)).

(** [results.generations.map(async (generation, index) => ...)]: the
    callbacks run in index order up to their call of [cache.update]. *)
Fixpoint spliceResults (prompts : list string) (key : string)
    (missing : list nat) (index : nat) (results : list (list Generation))
    (generations : list Slot) : M (list Slot) :=
  match results with
  | [] => ret generations
  | generation :: rest =>
      let promptIndex := missing !! index in
      let generations' :=
        match promptIndex with
        | Some i => <[i := Some generation]> generations
        | None => generations
        end in
      updateCache (promptIndex ≫= (fun i => prompts !! i)) key generation ;;;
      spliceResults prompts key missing (S index) rest generations'
  end.

(** [generate].  [settled] is the order in which the cache lookups of the
    batch settle: a rearrangement of the indices of the batch, the
    indices in increasing order for a cache that answers in turn. *)
Definition generate (this : BaseLLM) (prompts : PromptsArg)
    (stop : option (list string)) (cbs : option Callbacks)
    (settled : list nat) : M (LLMResultOf Slot) :=
  match prompts with
  | Malformed _ =>
      throw (JsError "Argument 'prompts' is expected to be a string[]")
  | Prompts prompts =>
      fun w =>
        match cache w with
        | None =>
            (r <- _generateUncached this prompts stop cbs ;;
             ret (mkLLMResult (List.map Some (generations r))
                    (llmOutput r) (__run r))) w
        | Some c =>
            let key :=
              llmStringKey (_identifyingParams this) (_llmType this) stop in
            (generations0 <- lookupAll c key prompts ;;
             let missing := missingPromptIndices generations0 settled in
             match missing with
             | [] => ret (mkLLMResult generations0 (Some []) None)
             | _ :: _ =>
                 results <- _generateUncached this
                              (List.map (fun i => default "" (prompts !! i))
                                 missing)
                              stop cbs ;;
                 merged <- spliceResults prompts key missing 0
                             (generations results) generations0 ;;
                 ret (mkLLMResult merged
                        (Some (default [] (llmOutput results))) None)
             end) w
        end
  end.

(** [call]: [generations[0][0].text] of the one-prompt batch; reading a
    missing element is a [TypeError]. *)
Definition call (this : BaseLLM) (prompt : string)
    (stop : option (list string)) (cbs : option Callbacks) : M string :=
  r <- generate this (Prompts [prompt]) stop cbs [0] ;;
  match generations r with
  | Some (g :: _) :: _ => ret (text g)
  | _ => throw (JsTypeError "Cannot read properties of undefined")
  end.

(** *** Observations on a call, for the statements below *)

(** The run handle [_generateUncached] obtains in world [w]: absent when
    [configure] answers no manager. *)
Definition run_handle (this : BaseLLM) (cbs : option Callbacks) (w : World)
    : option CallbackManagerForLLMRun :=
  option_map (fun m => mkRun (nextRunId w) (handlers m) (parentRunId m))
    (configure cbs (inheritedHandlers (callbacks this)) (verbose this)).

(** The interactions of a call that took the world from [w] to [w']. *)
Definition events_since (w w' : World) : list Event :=
  drop (length (log w)) (log w').

(** Is this prompt a miss under this key? *)
Definition misses (c : C) (key prompt : string) : bool :=
  match cache_lookup c prompt key with
  | None => true
  | Some _ => false
  end.

(** The miss-subset of a batch, in the original relative order. *)
Definition miss_subset (c : C) (key : string) (prompts : list string)
    : list string :=
  List.filter (misses c key) prompts.

(** One write per computed result, for the prompt it was computed for. *)
Definition writes_for (prompts : list string) (key : string)
    (missing : list nat) (results : list (list Generation))
    : list (option string * string * list Generation) :=
  zip_with (fun i g => (prompts !! i, key, g)) missing results.

(** The notifications around one backend invocation. *)
Definition start_events (this : BaseLLM) (prompts : list string)
    (run : option CallbackManagerForLLMRun) : list Event :=
  match run with
  | Some r => [EvLLMStart (runId r) (_llmType this) prompts]
  | None => []
  end.

Definition terminal_events (run : option CallbackManagerForLLMRun)
    (r : Outcome LLMResult) : list Event :=
  match run, r with
  | Some h, Ok output => [EvLLMEnd (runId h) output]
  | Some h, Throw err => [EvLLMError (runId h) err]
  | None, _ => []
  end.

(** The interactions of one pass through the uncached path. *)
Definition uncached_events (this : BaseLLM) (prompts : list string)
    (stop : option (list string)) (run : option CallbackManagerForLLMRun)
    (r : Outcome LLMResult) : list Event :=
  (start_events this prompts run
   ++ [EvGenerate prompts stop run] ++ terminal_events run r)%list.

(** The array of generations after the results are spliced in, as a
    function of the lists alone. *)
Fixpoint splice (missing : list nat) (index : nat)
    (results : list (list Generation)) (generations : list Slot)
    : list Slot :=
  match results with
  | [] => generations
  | generation :: rest =>
      splice missing (S index) rest
        (match missing !! index with
         | Some i => <[i := Some generation]> generations
         | None => generations
         end)
  end.

(** The writes issued while splicing, from position [index] on. *)
Fixpoint writes_from (prompts : list string) (key : string)
    (missing : list nat) (index : nat) (results : list (list Generation))
    : list (option string * string * list Generation) :=
  match results with
  | [] => []
  | generation :: rest =>
      (missing !! index ≫= (fun i => prompts !! i), key, generation)
      :: writes_from prompts key missing (S index) rest
  end.

Definition write_event (x : option string * string * list Generation)
    : Event :=
  EvUpdate x.1.1 x.1.2 x.2.

Definition apply_writes
    (writes : list (option string * string * list Generation)) (c : C) : C :=
  fold_left (fun c x => cache_update c x.1.1 x.1.2 x.2) writes c.

End Orchestrator.

Arguments World C B : clear implicits.
Arguments BaseLLM B : clear implicits.
Arguments M C B A : clear implicits.

(** ** Loading an instance from its serialised form *)

Module Deserialize.

(** [SerializedLLM]: the two discriminators, either of which may be
    missing at run time, and the remaining properties. *)
Record SerializedLLM : Type := mkSerialized {
  _model : option string;
  _type : option string;
  rest : Obj
}.

(** What [deserialize] does besides answering. *)
Inductive Step : Type :=
| Import (module : string)
| New (cls : string) (args : Obj).

(** The value [deserialize] resolves to. *)
Inductive Loaded : Type :=
| Instance (cls : string) (args : Obj)
| PlainObject (props : Obj).

(** The own properties of the literal [{ openai: OpenAI }]. *)
Definition registry : list (string * string) := [("openai", "OpenAI")].

(** The properties every object literal inherits from [Object.prototype]. *)
Definition Object_prototype : list string :=
  ["constructor"; "hasOwnProperty"; "isPrototypeOf"; "propertyIsEnumerable";
   "toLocaleString"; "toString"; "valueOf"; "__proto__";
   "__defineGetter__"; "__defineSetter__";
   "__lookupGetter__"; "__lookupSetter__"].

Inductive Property : Type :=
| Own (cls : string)
| Inherited (prop : string)
| Undefined.

Fixpoint assoc (k : string) (l : list (string * string)) : option string :=
  match l with
  | [] => None
  | (k', v) :: l' => if String.eqb k k' then Some v else assoc k l'
  end.

Definition mem (k : string) (l : list string) : bool :=
  List.existsb (String.eqb k) l.

(** [`${v}`] for a string or [undefined]. *)
Definition template (v : option string) : string :=
  match v with
  | Some s => s
  | None => "undefined"
  end.

(** [{ openai: OpenAI }[_type]]: own properties first, then the
    prototype. *)
Definition get (_type : option string) : Property :=
  let key := template _type in
  match assoc key registry with
  | Some cls => Own cls
  | None => if mem key Object_prototype then Inherited key else Undefined
  end.

(** A string is truthy when it is not empty; [undefined] is falsy. *)
Definition truthy (v : option string) : bool :=
  match v with
  | Some s => negb (String.eqb s "")
  | None => false
  end.

(** [deserialize(data)], with the steps it takes.  The constructors of
    the model classes are not among the sources: [construct cls args] is
    the failure that [new cls(args)] throws, if it throws.  The module
    [./openai.js] is one of this repository and is taken to load. *)
Definition deserialize (construct : string -> Obj -> option Exn)
    (data : SerializedLLM) : Outcome Loaded * list Step :=
  if truthy (_model data)
     && negb (String.eqb (template (_model data)) "base_llm")
  then (Throw (JsError ("Cannot load LLM with model "
                          ++ template (_model data))), [])
  else
    let steps := [Import "./openai.js"] in
    match get (_type data) with
    | Undefined =>
        (Throw (JsError ("Cannot load  LLM with type "
                           ++ template (_type data))), steps)
    | Own cls =>
        (match construct cls (rest data) with
         | None => Ok (Instance cls (rest data))
         | Some err => Throw err
         end,
         (steps ++ [New cls (rest data)])%list)
    | Inherited prop =>
        if String.eqb prop "constructor"
        then (Ok (PlainObject (rest data)),
              (steps ++ [New "Object" (rest data)])%list)
        else (Throw (JsTypeError "Cls is not a constructor"), steps)
    end.

(** The two failures of [deserialize]. *)
Definition model_mismatch (data : SerializedLLM) : Exn :=
  JsError ("Cannot load LLM with model " ++ template (_model data)).

Definition unknown_type (data : SerializedLLM) : Exn :=
  JsError ("Cannot load  LLM with type " ++ template (_type data)).

(** Is the type discriminator a key of the table? *)
Definition registered (data : SerializedLLM) : bool :=
  match assoc (template (_type data)) registry with
  | Some _ => true
  | None => false
  end.

Definition constructs (steps : list Step) : bool :=
  List.existsb (fun s => match s with New _ _ => true | Import _ => false end)
    steps.

End Deserialize.

(** ** The single-prompt adapter: [LLM] *)

Module LLM.

Section Adapter.

Context {B : Type}.

(** The abstract [_call]. *)
Variable _call :
  string -> option (list string) -> option CallbackManagerForLLMRun ->
  B -> Outcome string * B.

(** The loop of [_generate], from the prompts still to do and the
    generations pushed so far. *)
Fixpoint loop (prompts : list string) (stop : option (list string))
    (run : option CallbackManagerForLLMRun)
    (generations : list (list Generation)) (b : B)
    : Outcome LLMResult * B :=
  match prompts with
  | [] => (Ok (mkLLMResult generations None None), b)
  | prompt :: rest =>
      match _call prompt stop run b with
      | (Ok text, b') =>
          loop rest stop run (generations ++ [[mkGeneration text None]])%list b'
      | (Throw e, b') => (Throw e, b')
      end
  end.

Definition _generate (prompts : list string) (stop : option (list string))
    (run : option CallbackManagerForLLMRun) (b : B) : Outcome LLMResult * B :=
  loop prompts stop run [] b.

(** The single-prompt operation answers [texts] for [prompts], one call
    after the other, taking the backend from [b] to [b']. *)
Inductive answers (stop : option (list string))
    (run : option CallbackManagerForLLMRun)
    : B -> list string -> list string -> B -> Prop :=
| answers_nil b : answers stop run b [] [] b
| answers_cons b prompt text b1 prompts texts b2 :
    _call prompt stop run b = (Ok text, b1) ->
    answers stop run b1 prompts texts b2 ->
    answers stop run b (prompt :: prompts) (text :: texts) b2.

(** A string as a one-element candidate list. *)
Definition wrap (text : string) : list Generation :=
  [mkGeneration text None].

(** An instance of the adapter, as a [BaseLLM]. *)
Definition make (nm : string) (cbs : option Callbacks) (vb : bool)
    (params : Obj) (ty : string) : BaseLLM B :=
  mkBaseLLM nm cbs vb params ty _generate.

End Adapter.

End LLM.

(** ** Concrete instances, for evaluating the model *)

Module Demo.

(** A [configure] that answers a manager as soon as there is a handler
    or verbosity is on. *)
Definition configure (cbs : option Callbacks)
    (inherited : option (list BaseCallbackHandler)) (vb : bool)
    : option CallbackManager :=
  match cbs, inherited with
  | None, None => if vb then Some (mkManager [] None) else None
  | Some (ByManager m), _ => Some m
  | Some (ByHandlers hs), _ => Some (mkManager hs None)
  | None, Some hs => Some (mkManager hs None)
  end.

(** What the echo backend answers: each prompt with the stop strings it
    was given, separated by bars. *)
Definition echo_result (prompts : list string) (stop : option (list string))
    : LLMResult :=
  mkLLMResult
    (List.map (fun p => [mkGeneration
                           (p ++ "/" ++ join "|" (default [] stop)) None])
       prompts)
    (Some [("tokens", JNum 7)]) None.

(** The echo backend, which counts its invocations. *)
Definition echo (prompts : list string) (stop : option (list string))
    (run : option CallbackManagerForLLMRun) (n : nat)
    : Outcome LLMResult * nat :=
  (Ok (echo_result prompts stop), S n).

(** A backend that always fails. *)
Definition failing (prompts : list string) (stop : option (list string))
    (run : option CallbackManagerForLLMRun) (n : nat)
    : Outcome LLMResult * nat :=
  (Throw (JsError "rate limit"), S n).

Definition echo_llm : BaseLLM nat :=
  mkBaseLLM "echo" None true [] "echo" echo.

Definition failing_llm : BaseLLM nat :=
  mkBaseLLM "failing" None true [] "failing" failing.

(** A single-prompt operation: the prompt in angle brackets. *)
Definition shout (prompt : string) (stop : option (list string))
    (run : option CallbackManagerForLLMRun) (n : nat) : Outcome string * nat :=
  (Ok ("<" ++ prompt ++ ">"), S n).

Definition key0 : string := llmStringKey [] "echo" None.

Definition cached2 : list Generation := [mkGeneration "cached" None].

(** A cache that holds the second of three prompts. *)
Definition cache2 : gmap (option string * string) (list Generation) :=
  <[(Some "p2", key0) := cached2]> ∅.

(** A cache that holds all three. *)
Definition cache123 : gmap (option string * string) (list Generation) :=
  <[(Some "p1", key0) := [mkGeneration "one" None]]>
    (<[(Some "p3", key0) := [mkGeneration "three" None]]> cache2).

Definition world (c : option (gmap (option string * string) (list Generation)))
    : World (gmap (option string * string) (list Generation)) nat :=
  mkWorld c 0 [] 0.

Definition batch : list string := ["p1"; "p2"; "p3"].

End Demo.

(** ** Further operations of the source *)

(** [o[k]] for an own property of a plain object. *)
Fixpoint getProp (k : string) (o : Obj) : option JsVal :=
  match o with
  | [] => None
  | (k', v) :: o' => if String.eqb k k' then Some v else getProp k o'
  end.

(** A discriminator as [SerializedLLM] declares it: a string, or missing. *)
Definition asString (v : option JsVal) : option string :=
  match v with
  | Some (JStr s) => Some s
  | _ => None
  end.

Definition is_discriminator (kv : string * JsVal) : bool :=
  String.eqb (fst kv) "_type" || String.eqb (fst kv) "_model".

(** [const { _type, _model, ...rest } = data]. *)
Definition destructure (data : Obj) : Deserialize.SerializedLLM :=
  Deserialize.mkSerialized
    (asString (getProp "_model" data))
    (asString (getProp "_type" data))
    (List.filter (fun kv => negb (is_discriminator kv)) data).

(** [BaseLLM.deserialize] applied to a plain object. *)
Definition deserializeObj (construct : string -> Obj -> option Exn)
    (data : Obj) : Outcome Deserialize.Loaded * list Deserialize.Step :=
  Deserialize.deserialize construct (destructure data).

(** The contract a cache is expected to keep: a lookup answers the last
    value written under its prompt and key, and a write leaves every
    other pair as it was. *)
Definition lawful_cache (C : Type) `{BaseCache C} : Prop :=
  (forall (c : C) p k v,
     cache_lookup (cache_update c (Some p) k v) p k = Some v)
  /\ (forall (c : C) op k v p' k',
        (Some p', k') <> (op, k) ->
        cache_lookup (cache_update c op k v) p' k' = cache_lookup c p' k').

(** The pair a write is filed under. *)
Definition write_key (x : option string * string * list Generation)
    : option string * string :=
  (x.1.1, x.1.2).

(** What a batch merges to when the backend answers every prompt on its
    own: the cached list for a hit, the backend's answer for a miss. *)
Definition merged_pointwise {C : Type} `{BaseCache C} (c : C) (key : string)
    (answer : string -> list Generation) (prompts : list string)
    : list (option (list Generation)) :=
  List.map (fun p => match cache_lookup c p key with
                     | Some g => Some g
                     | None => Some (answer p)
                     end) prompts.

(** The constructor's arguments that reach [super(...)], out of
    [{ cache, concurrency, ...rest }]. *)
Record BaseLLMParams : Type := mkParams {
  p_concurrency : option Z;
  p_rest : Obj
}.

(** [{ ...target, ...source }]: the properties of [source] are set on
    [target] one after the other. *)
Definition spread (target source : Obj) : Obj :=
  fold_left (fun o kv => set kv.1 kv.2 o) source target.

(** A number is truthy when it is not zero; [undefined] is falsy. *)
Definition number_truthy (n : option Z) : bool :=
  match n with
  | Some z => negb (Z.eqb z 0)
  | None => false
  end.

(** The argument of [super(...)]:
    [concurrency ? { maxConcurrency: concurrency, ...rest } : rest]. *)
Definition superArgs (params : BaseLLMParams) : Obj :=
  match p_concurrency params with
  | Some z =>
      if number_truthy (Some z)
      then spread [("maxConcurrency", JNum z)] (p_rest params)
      else p_rest params
  | None => p_rest params
  end.

(** More concrete instances. *)
Module Samples.

(** A backend that answers a result for the first prompt only. *)
Definition short (prompts : list string) (stop : option (list string))
    (run : option CallbackManagerForLLMRun) (n : nat)
    : Outcome LLMResult * nat :=
  (Ok (mkLLMResult
         (List.map (fun p => [mkGeneration p None]) (take 1 prompts))
         None None),
   S n).

Definition short_llm : BaseLLM nat :=
  mkBaseLLM "short" None false [] "short" short.

(** A single-prompt operation that fails on the prompt "bad". *)
Definition picky (prompt : string) (stop : option (list string))
    (run : option CallbackManagerForLLMRun) (n : nat) : Outcome string * nat :=
  if String.eqb prompt "bad"
  then (Throw (JsError "refused"), S n)
  else (Ok ("<" ++ prompt ++ ">"), S n).

(** A backend that answers one result more than it was given prompts. *)
Definition long (prompts : list string) (stop : option (list string))
    (run : option CallbackManagerForLLMRun) (n : nat)
    : Outcome LLMResult * nat :=
  (Ok (mkLLMResult
         (List.map (fun p => [mkGeneration p None]) (prompts ++ ["extra"])%list)
         None None),
   S n).

Definition long_llm : BaseLLM nat :=
  mkBaseLLM "long" None false [] "long" long.

(** A model constructor that refuses arguments without an API key. *)
Definition needs_key (cls : string) (args : Obj) : option Exn :=
  match getProp "openAIApiKey" args with
  | Some _ => None
  | None => Some (JsError "OpenAI API key not found")
  end.

(** A first call on the batch whose second prompt is cached, and what
    it returns. *)
Definition first_call :=
  generate Demo.configure Demo.echo_llm (Prompts Demo.batch) None None
    [0; 1; 2] (Demo.world (Some Demo.cache2)).

Definition first_result : LLMResultOf (option (list Generation)) :=
  match first_call.1 with
  | Ok merged => merged
  | Throw _ => mkLLMResult [] None None
  end.

(** A call on the same batch with the short backend. *)
Definition short_call :=
  generate Demo.configure short_llm (Prompts Demo.batch) None None
    [0; 1; 2] (Demo.world (Some Demo.cache2)).

Definition short_result : LLMResultOf (option (list Generation)) :=
  match short_call.1 with
  | Ok merged => merged
  | Throw _ => mkLLMResult [] None None
  end.

End Samples.

(** * Properties *)

Section Proofs.

Local Open Scope list_scope.

Context {C : Type} `{BaseCache C} {B : Type}.

Variable configure :
  option Callbacks -> option (list BaseCallbackHandler) -> bool ->
  option CallbackManager.

Implicit Types (w : World C B) (this : BaseLLM B) (c : C).
Implicit Types (prompts : list string) (stop : option (list string)).
Implicit Types (cbs : option Callbacks) (settled missing : list nat).

(** The world after some more interactions. *)
Local Abbreviation logged w evs :=
  (mkWorld (cache w) (backend w) (app (log w) evs) (nextRunId w)).

Lemma events_since_app w (oc : option C) (b : B) (evs : list Event) (n : RunId) :
  events_since w (mkWorld oc b (log w ++ evs) n) = evs.
Proof.
  unfold events_since. simpl. by rewrite drop_app_length.
Qed.

Lemma lookupAll_eq c key prompts w :
  lookupAll c key prompts w
  = (Ok (List.map (fun p => cache_lookup c p key) prompts),
     logged w (List.map (fun p => EvLookup p key) prompts)).
Proof.
  revert w. induction prompts as [|p ps IH]; intros w; simpl.
  - unfold ret. destruct w; simpl. by rewrite app_nil_r.
  - unfold bind, emit, ret. rewrite IH. simpl.
    by rewrite <- app_assoc.
Qed.

(** The uncached path in one equation: the backend is invoked once,
    between the start notification and the terminal one. *)
Lemma generateUncached_eq this prompts stop cbs w :
  _generateUncached configure this prompts stop cbs w
  = let run := run_handle configure this cbs w in
    let rb := _generate this prompts stop run (backend w) in
    (match rb.1 with
     | Ok output =>
         Ok (mkLLMResult (generations output) (llmOutput output)
               (option_map (fun r => mkRunInfo (runId r)) run))
     | Throw err => Throw err
     end,
     mkWorld (cache w) rb.2
       (log w ++ uncached_events this prompts stop run rb.1)
       (match run with Some _ => S (nextRunId w) | None => nextRunId w end)).
Proof.
  unfold _generateUncached, run_handle.
  destruct (configure cbs (inheritedHandlers (callbacks this)) (verbose this))
    as [m|]; simpl;
    unfold bind, try_catch, call_generate, handleLLMStart, handleLLMError,
      handleLLMEnd, bind, emit, freshRunId, ret, throw; simpl;
    destruct (_generate this prompts stop _ (backend w)) as [[output|err] b];
    unfold uncached_events; simpl; by rewrite <- ?app_assoc.
Qed.

Lemma spliceResults_eq prompts key missing index results
    (generations0 : list Slot) w :
  spliceResults prompts key missing index results generations0 w
  = let writes := writes_from prompts key missing index results in
    (Ok (splice missing index results generations0),
     mkWorld (option_map (apply_writes writes) (cache w)) (backend w)
       (log w ++ List.map write_event writes) (nextRunId w)).
Proof.
  revert index generations0 w.
  induction results as [|g rest IH]; intros index generations0 w; simpl.
  - unfold ret. destruct w as [[c|] b l n]; simpl; by rewrite app_nil_r.
  - unfold bind, updateCache, bind, emit. simpl. rewrite IH. simpl.
    rewrite <- app_assoc. simpl.
    destruct (cache w); reflexivity.
Qed.

(** [generate] on the cached path, in one equation. *)
Lemma generate_cached_eq this prompts stop cbs settled w c :
  cache w = Some c ->
  generate configure this (Prompts prompts) stop cbs settled w
  = let key := llmStringKey (_identifyingParams this) (_llmType this) stop in
    let hits := List.map (fun p => cache_lookup c p key) prompts in
    let missing := missingPromptIndices hits settled in
    let w1 := logged w (List.map (fun p => EvLookup p key) prompts) in
    match missing with
    | [] => (Ok (mkLLMResult hits (Some []) None), w1)
    | _ :: _ =>
        let sub := List.map (fun i => default "" (prompts !! i)) missing in
        match _generateUncached configure this sub stop cbs w1 with
        | (Ok results, w2) =>
            let writes :=
              writes_from prompts key missing 0 (generations results) in
            (Ok (mkLLMResult (splice missing 0 (generations results) hits)
                   (Some (default [] (llmOutput results))) None),
             mkWorld (option_map (apply_writes writes) (cache w2))
               (backend w2) (log w2 ++ List.map write_event writes)
               (nextRunId w2))
        | (Throw err, w2) => (Throw err, w2)
        end
    end.
Proof.
  intros Hc. destruct w as [oc b l n]. simpl in Hc. subst oc.
  unfold generate. simpl. unfold bind at 1.
  rewrite lookupAll_eq. simpl.
  destruct (missingPromptIndices _ settled) as [|i missing'] eqn:Hmiss.
  - reflexivity.
  - unfold bind at 1.
    destruct (_generateUncached _ _ _ _ _ _) as [[results|err] w2]; [|done].
    unfold bind, ret. by rewrite spliceResults_eq.
Qed.

(** *** The indices of the misses *)

Lemma missing_spec (hits : list Slot) settled i :
  In i (missingPromptIndices hits settled)
  <-> In i settled /\ hits !! i = Some None.
Proof.
  unfold missingPromptIndices. rewrite filter_In.
  destruct (hits !! i) as [[g|]|]; split; intros [Hin Hb];
    try discriminate; split; trivial.
Qed.

Lemma filter_Permutation_bool {A} (f : A -> bool) (l l' : list A) :
  Permutation l l' -> Permutation (List.filter f l) (List.filter f l').
Proof.
  induction 1 as [|x l l' _ IH|x y l|l l' l'' _ IH1 _ IH2]; simpl.
  - constructor.
  - destruct (f x); [by constructor | done].
  - destruct (f x), (f y); try done; [by constructor | by constructor ..].
  - by etrans.
Qed.

Lemma missing_NoDup (hits : list Slot) settled n :
  Permutation settled (seq 0 n) ->
  NoDup (missingPromptIndices hits settled).
Proof.
  intros Hp. apply NoDup_ListNoDup, List.NoDup_filter.
  eapply Permutation_NoDup; [symmetry; exact Hp | apply List.seq_NoDup].
Qed.

(** In index order the misses are the sub-list of the prompts that miss. *)
Lemma missing_in_order_from c key (pre l : list string) :
  List.map (fun i => default "" ((pre ++ l) !! i))
    (missingPromptIndices
       (List.map (fun p => cache_lookup c p key) (pre ++ l))
       (seq (length pre) (length l)))
  = miss_subset c key l.
Proof.
  revert pre. induction l as [|a l IH]; intros pre; [done|].
  specialize (IH (pre ++ [a])).
  rewrite <- app_assoc, length_app in IH. simpl in IH.
  rewrite Nat.add_1_r in IH.
  unfold missingPromptIndices, miss_subset in *. simpl.
  rewrite list_lookup_fmap, list_lookup_middle by done. simpl.
  unfold misses at 1.
  destruct (cache_lookup c a key) eqn:Ha; simpl.
  - exact IH.
  - rewrite list_lookup_middle by done. simpl. by rewrite IH.
Qed.

Lemma missing_in_order c key prompts :
  List.map (fun i => default "" (prompts !! i))
    (missingPromptIndices
       (List.map (fun p => cache_lookup c p key) prompts)
       (seq 0 (length prompts)))
  = miss_subset c key prompts.
Proof. exact (missing_in_order_from c key [] prompts). Qed.

(** In any order the misses are the same prompts, rearranged. *)
Lemma missing_permutation c key prompts settled :
  Permutation settled (seq 0 (length prompts)) ->
  Permutation
    (List.map (fun i => default "" (prompts !! i))
       (missingPromptIndices
          (List.map (fun p => cache_lookup c p key) prompts) settled))
    (miss_subset c key prompts).
Proof.
  intros Hp. rewrite <- missing_in_order.
  apply Permutation_map. by apply filter_Permutation_bool.
Qed.

(** *** Splicing *)

Lemma splice_length missing index results (generations0 : list Slot) :
  length (splice missing index results generations0) = length generations0.
Proof.
  revert index generations0.
  induction results as [|g rest IH]; intros index generations0; simpl; [done|].
  rewrite IH. destruct (missing !! index); [apply length_insert | done].
Qed.

Lemma splice_other missing index results (generations0 : list Slot) i :
  (forall j, index <= j -> missing !! j <> Some i) ->
  splice missing index results generations0 !! i = generations0 !! i.
Proof.
  revert index generations0.
  induction results as [|g rest IH]; intros index generations0 Hi; simpl;
    [done|].
  rewrite IH by (intros j Hj; apply Hi; lia).
  destruct (missing !! index) as [i'|] eqn:Hidx; [|done].
  apply list_lookup_insert_ne. intros ->. by apply (Hi index).
Qed.

Lemma splice_at missing index results (generations0 : list Slot) j i g :
  NoDup missing ->
  missing !! j = Some i ->
  index <= j ->
  results !! (j - index) = Some g ->
  i < length generations0 ->
  splice missing index results generations0 !! i = Some (Some g).
Proof.
  intros Hnd Hj. revert index generations0.
  induction results as [|g0 rest IH]; intros index generations0 Hle Hg Hlen;
    [done|]. simpl.
  destruct (decide (j = index)) as [->|Hne].
  - rewrite Nat.sub_diag in Hg. simpl in Hg. injection Hg as ->.
    rewrite Hj. rewrite splice_other.
    + by apply list_lookup_insert_eq.
    + intros j' Hj' Hbad.
      pose proof (NoDup_lookup _ _ _ _ Hnd Hj Hbad). lia.
  - replace (j - index) with (S (j - S index)) in Hg by lia. simpl in Hg.
    apply IH; [lia | done |].
    destruct (missing !! index); [by rewrite length_insert | done].
Qed.

(** *** Reading the log *)

Lemma backend_calls_app (l1 l2 : list Event) :
  backend_calls (l1 ++ l2) = backend_calls l1 ++ backend_calls l2.
Proof. apply omap_app. Qed.

Lemma cache_writes_app (l1 l2 : list Event) :
  cache_writes (l1 ++ l2) = cache_writes l1 ++ cache_writes l2.
Proof. apply omap_app. Qed.

Lemma backend_calls_lookups key prompts :
  backend_calls (List.map (fun p => EvLookup p key) prompts) = [].
Proof. induction prompts; [done | simpl; assumption]. Qed.

Lemma cache_writes_lookups key prompts :
  cache_writes (List.map (fun p => EvLookup p key) prompts) = [].
Proof. induction prompts; [done | simpl; assumption]. Qed.

Lemma backend_calls_writes writes :
  backend_calls (List.map write_event writes) = [].
Proof. induction writes; [done | simpl; assumption]. Qed.

Lemma cache_writes_writes writes :
  cache_writes (List.map write_event writes) = writes.
Proof.
  induction writes as [|[[p k] v] ws IH]; [done|].
  unfold cache_writes in *. simpl. by f_equal.
Qed.

Lemma backend_calls_uncached this prompts stop run (r : Outcome LLMResult) :
  backend_calls (uncached_events this prompts stop run r) = [prompts].
Proof. destruct run, r; reflexivity. Qed.

Lemma cache_writes_uncached this prompts stop run (r : Outcome LLMResult) :
  cache_writes (uncached_events this prompts stop run r) = [].
Proof. destruct run, r; reflexivity. Qed.

Lemma writes_from_zip prompts key missing results :
  length results <= length missing ->
  writes_from prompts key missing 0 results
  = writes_for prompts key missing results.
Proof.
  unfold writes_for.
  assert (Hgen : forall index,
    length results <= length (drop index missing) ->
    writes_from prompts key missing index results
    = zip_with (fun i g => (prompts !! i, key, g)) (drop index missing) results).
  { induction results as [|g rest IH]; intros index Hlen; simpl.
    - by destruct (drop index missing).
    - destruct (drop index missing) as [|i tl] eqn:Hd; simpl in Hlen; [lia|].
      assert (Hi : missing !! index = Some i).
      { rewrite <- (Nat.add_0_r index), <- lookup_drop, Hd. done. }
      rewrite Hi. simpl. f_equal.
      assert (Htl : drop (S index) missing = tl).
      { replace (S index) with (index + 1) by lia.
        by rewrite <- drop_drop, Hd. }
      rewrite IH; rewrite Htl; [done | lia]. }
  intros Hlen. apply (Hgen 0). by rewrite drop_0.
Qed.

(** *** The three ways a cached call can go *)

Section CachedCall.

Variables (this : BaseLLM B) (prompts : list string)
  (stop : option (list string)) (cbs : option Callbacks)
  (settled : list nat) (w : World C B) (c : C).

Hypothesis cache_configured : cache w = Some c.

Let key := llmStringKey (_identifyingParams this) (_llmType this) stop.
Let hits := List.map (fun p => cache_lookup c p key) prompts.
Let missing := missingPromptIndices hits settled.
Let sub := List.map (fun i => default "" (prompts !! i)) missing.
Let lookups := List.map (fun p => EvLookup p key) prompts.
Let run := run_handle configure this cbs w.
Let next := match run with Some _ => S (nextRunId w) | None => nextRunId w end.

Lemma generate_all_hits :
  missing = [] ->
  generate configure this (Prompts prompts) stop cbs settled w
  = (Ok (mkLLMResult hits (Some []) None), logged w lookups).
Proof.
  intros Hm. rewrite (generate_cached_eq _ _ _ _ _ _ c cache_configured).
  cbv zeta. fold key hits missing. by rewrite Hm.
Qed.

Lemma generate_backend_ok results b' :
  missing <> [] ->
  _generate this sub stop run (backend w) = (Ok results, b') ->
  generate configure this (Prompts prompts) stop cbs settled w
  = let writes := writes_from prompts key missing 0 (generations results) in
    (Ok (mkLLMResult (splice missing 0 (generations results) hits)
           (Some (default [] (llmOutput results))) None),
     mkWorld (Some (apply_writes writes c)) b'
       (log w ++ lookups ++ uncached_events this sub stop run (Ok results)
              ++ List.map write_event writes)
       next).
Proof.
  intros Hm Hgen. rewrite (generate_cached_eq _ _ _ _ _ _ c cache_configured).
  cbv zeta. fold key hits missing.
  destruct missing as [|i0 rest] eqn:Hmiss; [done|]. fold sub.
  rewrite generateUncached_eq. cbv zeta.
  change (run_handle configure this cbs _) with run.
  change (backend (logged w _)) with (backend w).
  rewrite Hgen. simpl. rewrite cache_configured. simpl.
  f_equal. f_equal. by rewrite <- !app_assoc.
Qed.

Lemma generate_backend_throws err b' :
  missing <> [] ->
  _generate this sub stop run (backend w) = (Throw err, b') ->
  generate configure this (Prompts prompts) stop cbs settled w
  = (Throw err,
     mkWorld (Some c) b'
       (log w ++ lookups ++ uncached_events this sub stop run (Throw err))
       next).
Proof.
  intros Hm Hgen. rewrite (generate_cached_eq _ _ _ _ _ _ c cache_configured).
  cbv zeta. fold key hits missing.
  destruct missing as [|i0 rest] eqn:Hmiss; [done|]. fold sub.
  rewrite generateUncached_eq. cbv zeta.
  change (run_handle configure this cbs _) with run.
  change (backend (logged w _)) with (backend w).
  rewrite Hgen. simpl. rewrite cache_configured.
  f_equal. f_equal. by rewrite <- !app_assoc.
Qed.

End CachedCall.

(** *** Claims about the cached path *)

(** C3.  With a cache configured in which every prompt of the batch is
    found under the current key, [generate] returns the cached results in
    input order with an empty metadata map; the only interactions are the
    lookups, so the backend is never invoked. *)
Theorem C3_all_hits_skip_backend this prompts stop cbs settled w c :
  let key := llmStringKey (_identifyingParams this) (_llmType this) stop in
  cache w = Some c ->
  (forall p, In p prompts -> is_Some (cache_lookup c p key)) ->
  exists found w',
    generate configure this (Prompts prompts) stop cbs settled w
      = (Ok (mkLLMResult (List.map Some found) (Some []) None), w')
    /\ Forall2 (fun p g => cache_lookup c p key = Some g) prompts found
    /\ backend_calls (events_since w w') = []
    /\ cache_writes (events_since w w') = []
    /\ backend w' = backend w
    /\ cache w' = cache w.
Proof.
  intros key Hc Hall.
  set (hits := List.map (fun p => cache_lookup c p key) prompts).
  assert (Hfound : exists found,
            hits = List.map Some found
            /\ Forall2 (fun p g => cache_lookup c p key = Some g) prompts found).
  { subst hits. induction prompts as [|p ps IH].
    - exists []. split; [done | constructor].
    - destruct IH as (found & Heq & Hf2).
      { intros p' Hp'. apply Hall. by right. }
      destruct (Hall p (or_introl eq_refl)) as [g Hg].
      exists (g :: found). split; [simpl; by rewrite Hg, Heq|].
      by constructor. }
  destruct Hfound as (found & Heq & Hf2).
  assert (Hm : missingPromptIndices hits settled = []).
  { destruct (missingPromptIndices hits settled) as [|i rest] eqn:Hmi; [done|].
    assert (Hin : In i (missingPromptIndices hits settled))
      by (rewrite Hmi; by left).
    apply missing_spec in Hin as [_ Hnone].
    rewrite Heq, list_lookup_fmap in Hnone.
    destruct (found !! i); discriminate. }
  exists found. eexists. split.
  { rewrite (generate_all_hits this prompts stop cbs settled w c Hc Hm).
    fold key hits. rewrite Heq. reflexivity. }
  split; [done|]. rewrite events_since_app.
  by rewrite backend_calls_lookups, cache_writes_lookups.
Qed.

Lemma writes_from_In prompts key missing index results p k v :
  In (p, k, v) (writes_from prompts key missing index results) ->
  k = key
  /\ forall s, p = Some s -> exists i, In i missing /\ prompts !! i = Some s.
Proof.
  revert index. induction results as [|g rest IH]; intros index; simpl;
    [done|].
  intros [Heq|Hin]; [|by eapply IH].
  injection Heq as <- <- <-. split; [done|]. intros s Hs.
  destruct (missing !! index) as [i|] eqn:Hi; [|discriminate].
  exists i. split; [|done].
  apply list_elem_of_In. by eapply list_elem_of_lookup_2.
Qed.

Lemma writes_for_prompts prompts key missing results :
  length results = length missing ->
  (forall i, In i missing -> i < length prompts) ->
  List.map (fun x => x.1.1) (writes_for prompts key missing results)
  = List.map Some (List.map (fun i => default "" (prompts !! i)) missing).
Proof.
  unfold writes_for. revert results.
  induction missing as [|i rest IH]; intros results Hlen Hin;
    destruct results as [|g gs]; try discriminate; [done|].
  simpl. f_equal.
  - destruct (lookup_lt_is_Some_2 prompts i) as [p Hp];
      [apply Hin; by left|]. by rewrite Hp.
  - apply IH; [by injection Hlen | intros; apply Hin; by right].
Qed.

(** C10.  With a cache configured and at least one miss, the uncached
    path's own result carries the run-correlation field [__run] of its run
    handle, while the result [generate] returns is a new record made of
    the merged generations and the uncached path's metadata map (the
    empty map when it has none), without a [__run] field. *)
Theorem C10_cached_result_drops_run
    this prompts stop cbs settled w c results b' :
  let key := llmStringKey (_identifyingParams this) (_llmType this) stop in
  let hits := List.map (fun p => cache_lookup c p key) prompts in
  let missing := missingPromptIndices hits settled in
  let sub := List.map (fun i => default "" (prompts !! i)) missing in
  let run := run_handle configure this cbs w in
  let w1 := logged w (List.map (fun p => EvLookup p key) prompts) in
  cache w = Some c ->
  missing <> [] ->
  _generate this sub stop run (backend w) = (Ok results, b') ->
  exists uncached w2 merged w',
    _generateUncached configure this sub stop cbs w1 = (Ok uncached, w2)
    /\ __run uncached = option_map (fun r => mkRunInfo (runId r)) run
    /\ generate configure this (Prompts prompts) stop cbs settled w
       = (Ok merged, w')
    /\ merged = mkLLMResult (splice missing 0 (generations uncached) hits)
                  (Some (default [] (llmOutput uncached))) None
    /\ __run merged = None.
Proof.
  intros key hits missing sub run w1 Hc Hm Hback.
  eexists _, _, _, _. split.
  { rewrite generateUncached_eq. cbv zeta.
    change (run_handle configure this cbs w1) with run.
    change (backend w1) with (backend w). rewrite Hback. reflexivity. }
  split; [reflexivity|]. split.
  { exact (generate_backend_ok this prompts stop cbs settled w c Hc
             results b' Hm Hback). }
  split; reflexivity.
Qed.

(** *** Claims about the uncached path and the argument check *)

(** C5.  When the backend operation fails, the uncached path emits the
    error notification of its run handle (when there is one) after the
    backend invocation, and then fails with the very value the backend
    threw; the backend is invoked once, so nothing is retried. *)
Theorem C5_backend_failure_is_notified_then_rethrown
    this prompts stop cbs w err b' :
  let run := run_handle configure this cbs w in
  _generate this prompts stop run (backend w) = (Throw err, b') ->
  exists w',
    _generateUncached configure this prompts stop cbs w = (Throw err, w')
    /\ events_since w w'
       = start_events this prompts run
         ++ [EvGenerate prompts stop run]
         ++ match run with
            | Some h => [EvLLMError (runId h) err]
            | None => []
            end
    /\ backend_calls (events_since w w') = [prompts].
Proof.
  intros run Hback. eexists. split.
  { rewrite generateUncached_eq. cbv zeta. fold run. rewrite Hback.
    reflexivity. }
  simpl. rewrite events_since_app. split.
  - unfold uncached_events. by destruct run.
  - apply backend_calls_uncached.
Qed.

(** C6.  In every invocation of the uncached path that has a run handle,
    the notifications are the start notification of the run followed by
    one terminal notification of the same run: the error notification
    when the backend failed, in which case the failure is propagated, and
    the end notification with the backend's output when it succeeded, in
    which case a result is returned.  Without a run handle nothing is
    notified. *)
Theorem C6_start_precedes_single_terminal this prompts stop cbs w :
  let run := run_handle configure this cbs w in
  let rb := _generate this prompts stop run (backend w) in
  let rw := _generateUncached configure this prompts stop cbs w in
  let notes := List.filter is_notification (events_since w rw.2) in
  match run with
  | None => notes = []
  | Some h =>
      exists terminal,
        notes = [EvLLMStart (runId h) (_llmType this) prompts; terminal]
        /\ events_since w rw.2
           = [EvLLMStart (runId h) (_llmType this) prompts;
              EvGenerate prompts stop run; terminal]
        /\ match rb.1 with
           | Ok output =>
               terminal = EvLLMEnd (runId h) output
               /\ exists result, rw.1 = Ok result
           | Throw err =>
               terminal = EvLLMError (runId h) err /\ rw.1 = Throw err
           end
        /\ length (List.filter (is_start_of (runId h)) notes) = 1
        /\ length (List.filter (is_terminal_of (runId h)) notes) = 1
        /\ length (List.filter (is_error_of (runId h)) notes)
           + length (List.filter (is_end_of (runId h)) notes) = 1
  end.
Proof.
  cbv zeta. rewrite generateUncached_eq. cbv zeta. simpl.
  rewrite events_since_app. unfold uncached_events.
  destruct (run_handle configure this cbs w) as [h|] eqn:Hrun; simpl.
  - destruct (_generate this prompts stop (Some h) (backend w))
      as [[output|err] b]; simpl.
    + exists (EvLLMEnd (runId h) output).
      unfold is_terminal_of. simpl. rewrite Nat.eqb_refl. simpl.
      repeat split; eauto.
    + exists (EvLLMError (runId h) err).
      unfold is_terminal_of. simpl. rewrite Nat.eqb_refl. simpl.
      repeat split; eauto.
  - by destruct (_generate this prompts stop None (backend w)) as [[?|?] ?].
Qed.

(** C7.  When [prompts] is not an array, [generate] fails with the error
    "Argument 'prompts' is expected to be a string[]" and leaves the world
    as it found it: no cache lookup, no cache write, no backend
    invocation, no notification. *)
Theorem C7_non_array_prompts_rejected_first
    this (prompts : PromptsArg) stop cbs settled w :
  Array_isArray prompts = false ->
  generate configure this prompts stop cbs settled w
  = (Throw (JsError "Argument 'prompts' is expected to be a string[]"), w)
  /\ events_since w w = [].
Proof.
  intros Hna. destruct prompts as [ps|v]; [discriminate|]. split.
  - reflexivity.
  - unfold events_since. apply drop_all.
Qed.

End Proofs.

(** ** The cache key *)

Section CacheKey.

Local Open Scope list_scope.

Lemma same_text_refl x : same_text x x.
Proof. by split. Qed.

Lemma same_text_all_refl l : Forall2 same_text l l.
Proof. induction l; constructor; [apply same_text_refl | assumption]. Qed.

Lemma insert_sorted_same x x' l l' :
  same_text x x' -> Forall2 same_text l l' ->
  Forall2 same_text (insert_sorted x l) (insert_sorted x' l').
Proof.
  intros Hx Hl. induction Hl as [|y y' l l' Hy Hl IH]; simpl.
  - constructor; [exact Hx | constructor].
  - destruct (Hx) as [Hx1 Hx2]. destruct (Hy) as [Hy1 Hy2].
    rewrite Hx1, Hy1.
    destruct (str_le (toString x') (toString y')).
    + constructor; [exact Hx|]. constructor; [exact Hy | exact Hl].
    + constructor; [exact Hy | exact IH].
Qed.

Lemma sort_same l l' :
  Forall2 same_text l l' -> Forall2 same_text (sort l) (sort l').
Proof.
  unfold sort. induction 1 as [|x x' l l' Hx Hl IH]; simpl.
  - constructor.
  - by apply insert_sorted_same.
Qed.

Lemma toString_array l :
  toString (JArr l) = join "," (List.map elemToString l).
Proof. reflexivity. Qed.

Lemma toString_array_same l l' :
  Forall2 same_text l l' -> toString (JArr l) = toString (JArr l').
Proof.
  intros Hl. rewrite !toString_array. f_equal.
  induction Hl as [|x x' l l' [_ Hx] Hl IH]; simpl; [done|].
  by rewrite Hx, IH.
Qed.

Lemma entries_set_same k v v' (o : Obj) :
  elemToString v = elemToString v' ->
  Forall2 same_text (entries (set k v o)) (entries (set k v' o)).
Proof.
  intros Hv.
  assert (Hentry : same_text (JArr [JStr k; v]) (JArr [JStr k; v'])).
  { assert (Ht : toString (JArr [JStr k; v]) = toString (JArr [JStr k; v'])).
    { rewrite !toString_array. simpl. by rewrite Hv. }
    split; exact Ht. }
  induction o as [|[k0 v0] o IH]; simpl.
  - constructor; [exact Hentry | constructor].
  - destruct (String.eqb k k0); simpl.
    + constructor; [exact Hentry | apply same_text_all_refl].
    + constructor; [apply same_text_refl | exact IH].
Qed.

(** The entries are ordered by their text and joined by commas. *)
Example key_of_two_parameters :
  llmStringKey [("temperature", JNum 0); ("model_name", JStr "ada")]
               "openai" (Some ["###"; "END"])
  = "_model,base_llm,_type,openai,model_name,ada,stop,###,END,temperature,0".
Proof. vm_compute. reflexivity. Qed.

(** The key sees the stop list only through its text as an array
    element: the stop strings joined by commas, and the empty string when
    there is no stop list. *)
Lemma key_reads_stop_as_text params ty stop1 stop2 :
  elemToString (stopValue stop1) = elemToString (stopValue stop2) ->
  llmStringKey params ty stop1 = llmStringKey params ty stop2.
Proof.
  intros Hs. unfold llmStringKey.
  apply toString_array_same, sort_same, entries_set_same, Hs.
Qed.

End CacheKey.

(** C2.  The claim asks for different keys under different stop lists.
    The key does not deliver this: for every model, the stop list of the
    two strings a and b and the stop list of the one string a,b give the
    same key; and on the echo backend a call under the second list, made
    after a call under the first with the same prompt, invokes no backend
    and returns the result computed under the first list, which is not
    what the backend answers under the second. *)
Theorem C2_stop_lists_share_a_key :
  (forall params ty,
     llmStringKey params ty (Some ["a"; "b"])
     = llmStringKey params ty (Some ["a,b"]))
  /\ (let first := generate Demo.configure Demo.echo_llm (Prompts ["p"])
                     (Some ["a"; "b"]) None [0] (Demo.world (Some ∅)) in
      let second := generate Demo.configure Demo.echo_llm (Prompts ["p"])
                      (Some ["a,b"]) None [0] first.2 in
      backend_calls (events_since first.2 second.2) = []
      /\ second.1 = Ok (mkLLMResult [Some [mkGeneration "p/a|b" None]]
                          (Some []) None)
      /\ (Demo.echo ["p"] (Some ["a,b"]) None 0).1
         = Ok (mkLLMResult [[mkGeneration "p/a,b" None]]
                 (Some [("tokens", JNum 7)]) None)).
Proof.
  split.
  - intros params ty. by apply key_reads_stop_as_text.
  - vm_compute. by repeat split.
Qed.

(** ** Loading *)

Section Loading.

Import Deserialize.

Variable construct : string -> Obj -> option Exn.

(** C8 (amended).  A record whose model discriminator is a non-empty
    string other than base_llm is refused with the message "Cannot load
    LLM with model" followed by the discriminator, whatever its type
    discriminator; a record whose model discriminator is missing, empty
    or base_llm and whose type discriminator is neither a key of the
    table nor the name of a property inherited from [Object.prototype] is
    refused with the message "Cannot load  LLM with type" followed by the
    discriminator; in both cases nothing is constructed. *)
Theorem C8_deserialize_refusals (data : SerializedLLM) :
  let r := deserialize construct data in
  (truthy (_model data) = true ->
   template (_model data) <> "base_llm" ->
   r.1 = Throw (model_mismatch data) /\ constructs r.2 = false)
  /\ (truthy (_model data) = false \/ _model data = Some "base_llm" ->
      registered data = false ->
      mem (template (_type data)) Object_prototype = false ->
      r.1 = Throw (unknown_type data) /\ constructs r.2 = false).
Proof.
  cbv zeta. split.
  - intros Ht Hne. unfold deserialize. rewrite Ht.
    apply String.eqb_neq in Hne. rewrite Hne. by split.
  - intros Hmodel Hreg Hproto. unfold deserialize.
    assert (Hguard : truthy (_model data)
                     && negb (String.eqb (template (_model data)) "base_llm")
                     = false).
    { destruct Hmodel as [Hf|Hb]; [by rewrite Hf | by rewrite Hb]. }
    rewrite Hguard. unfold get. unfold registered in Hreg.
    destruct (assoc (template (_type data)) registry); [discriminate|].
    rewrite Hproto. by split.
Qed.

End Loading.

(** ** The adapter *)

Section AdapterProofs.

Local Open Scope list_scope.

Context {B : Type}.

Variable _call :
  string -> option (list string) -> option CallbackManagerForLLMRun ->
  B -> Outcome string * B.

Lemma loop_ok prompts stop run (acc : list (list Generation)) (b : B) r b' :
  LLM.loop _call prompts stop run acc b = (Ok r, b') ->
  exists texts,
    LLM.answers _call stop run b prompts texts b'
    /\ r = mkLLMResult (acc ++ List.map LLM.wrap texts) None None.
Proof.
  revert acc b. induction prompts as [|p ps IH]; intros acc b; simpl.
  - intros [= <- <-]. exists []. split; [constructor|].
    simpl. by rewrite app_nil_r.
  - destruct (_call p stop run b) as [[t|e] b1] eqn:Hcall; [|discriminate].
    intros Hloop. destruct (IH _ _ Hloop) as (texts & Hans & ->).
    exists (t :: texts). split; [by econstructor|].
    simpl. by rewrite <- app_assoc.
Qed.

Lemma loop_total prompts stop run (acc : list (list Generation)) (b : B) :
  (forall p b0, exists t b1, _call p stop run b0 = (Ok t, b1)) ->
  exists r b', LLM.loop _call prompts stop run acc b = (Ok r, b').
Proof.
  intros Hall. revert acc b.
  induction prompts as [|p ps IH]; intros acc b; simpl; [by eauto|].
  destruct (Hall p b) as (t & b1 & ->). apply IH.
Qed.

Lemma answers_length stop run (b : B) prompts texts b' :
  LLM.answers _call stop run b prompts texts b' ->
  length texts = length prompts.
Proof. induction 1; simpl; congruence. Qed.

(** C9.  When the adapter's batch generation returns, its per-prompt
    sequence has one entry per input prompt, in input order, each entry
    the one-element candidate list around the string the single-prompt
    operation produced for that prompt; and it does return whenever the
    single-prompt operation does. *)
Theorem C9_adapter_wraps_each_answer prompts stop run (b : B) :
  (forall r b',
     LLM._generate _call prompts stop run b = (Ok r, b') ->
     exists texts,
       LLM.answers _call stop run b prompts texts b'
       /\ generations r = List.map LLM.wrap texts
       /\ length (generations r) = length prompts)
  /\ ((forall p b0, exists t b1, _call p stop run b0 = (Ok t, b1)) ->
      exists r b', LLM._generate _call prompts stop run b = (Ok r, b')).
Proof.
  split.
  - intros r b' Hgen. apply loop_ok in Hgen as (texts & Hans & ->).
    exists texts. simpl. split; [done|]. split; [done|].
    rewrite length_map. by eapply answers_length.
  - intros Hall. by apply loop_total.
Qed.

End AdapterProofs.

(** ** The claims on concrete calls *)

Section Concrete.

Import Demo.

Local Open Scope list_scope.

Local Abbreviation Store := (gmap (option string * string) (list Generation)).

(** The same batch with the lookups settling in reverse: the backend
    gets the third prompt before the first, which is not the
    miss-subset in its original order. *)
Lemma C1_counterexample :
  let w := world (Some cache2) in
  let w' := (generate Demo.configure echo_llm (Prompts batch) None None
               [2; 1; 0] w).2 in
  miss_subset cache2 key0 batch = ["p1"; "p3"]
  /\ backend_calls (events_since w w') = [["p3"; "p1"]]
  /\ backend_calls (events_since w w') <> [miss_subset cache2 key0 batch].
Proof.
  vm_compute. split; [reflexivity|]. split; [reflexivity|]. discriminate.
Qed.

Lemma C3_witness :
  exists found w',
    generate Demo.configure echo_llm (Prompts batch) None None [0; 1; 2]
      (world (Some cache123))
    = (Ok (mkLLMResult (List.map Some found) (Some []) None), w')
    /\ backend_calls (events_since (world (Some cache123)) w') = [].
Proof.
  destruct (@C3_all_hits_skip_backend Store _ nat Demo.configure echo_llm
              batch None None [0; 1; 2] (world (Some cache123)) cache123)
    as (found & w' & Hgen & _ & Hcalls & _).
  - reflexivity.
  - intros p [<-|[<-|[<-|[]]]]; vm_compute; eexists; reflexivity.
  - exists found, w'. split; [exact Hgen | exact Hcalls].
Defined.

Lemma C5_witness :
  exists w',
    _generateUncached Demo.configure failing_llm ["p1"] None None
      (world None : World Store nat)
    = (Throw (JsError "rate limit"), w')
    /\ events_since (world None) w'
       = [EvLLMStart 0 "failing" ["p1"];
          EvGenerate ["p1"] None (Some (mkRun 0 [] None));
          EvLLMError 0 (JsError "rate limit")].
Proof.
  destruct (@C5_backend_failure_is_notified_then_rethrown Store nat
              Demo.configure failing_llm ["p1"] None None (world None)
              (JsError "rate limit") 1)
    as (w' & Hrun & Hevents & _).
  - reflexivity.
  - exists w'. split; [exact Hrun | exact Hevents].
Defined.

Lemma C7_witness :
  generate Demo.configure echo_llm (Malformed (NAStr "one prompt")) None None
    [] (world (Some cache2))
  = (Throw (JsError "Argument 'prompts' is expected to be a string[]"),
     world (Some cache2)).
Proof.
  apply (@C7_non_array_prompts_rejected_first Store _ nat Demo.configure
           echo_llm (Malformed (NAStr "one prompt")) None None []
           (world (Some cache2))).
  reflexivity.
Defined.

Lemma C8_witness :
  (Deserialize.deserialize Samples.needs_key
     (Deserialize.mkSerialized (Some "chat") (Some "openai") [])).1
  = Throw (JsError "Cannot load LLM with model chat")
  /\ (Deserialize.deserialize Samples.needs_key
        (Deserialize.mkSerialized None (Some "bogus") [])).1
     = Throw (JsError "Cannot load  LLM with type bogus")
  /\ Deserialize.constructs
       (Deserialize.deserialize Samples.needs_key
          (Deserialize.mkSerialized None (Some "bogus") [])).2 = false.
Proof.
  destruct (C8_deserialize_refusals Samples.needs_key
              (Deserialize.mkSerialized (Some "chat") (Some "openai") []))
    as [Hmodel _].
  destruct (C8_deserialize_refusals Samples.needs_key
              (Deserialize.mkSerialized None (Some "bogus") []))
    as [_ Htype].
  split.
  - apply Hmodel; [reflexivity | simpl; discriminate].
  - apply Htype; [left; reflexivity | reflexivity | reflexivity].
Defined.

(** Three records on which the claim fails.  The first is refused for
    its model although its type is not in the table either, so the
    failure is not the unknown-type one.  The second has a type that is
    not in the table, the name of a property every object literal
    inherits, and is not refused at all: a plain object is answered.  The
    third has a model discriminator that is present and is not base_llm,
    the empty string, and is not refused for it: the constructor is
    invoked. *)
Lemma C8_counterexample :
  let both := Deserialize.mkSerialized (Some "chat") (Some "bogus") [] in
  let inherited := Deserialize.mkSerialized None (Some "constructor") [] in
  let empty :=
    Deserialize.mkSerialized (Some "") (Some "openai")
      [("openAIApiKey", JStr "k")] in
  (Deserialize.registered both = false
   /\ (Deserialize.deserialize Samples.needs_key both).1
      = Throw (Deserialize.model_mismatch both)
   /\ (Deserialize.deserialize Samples.needs_key both).1
      <> Throw (Deserialize.unknown_type both))
  /\ (Deserialize.registered inherited = false
      /\ (Deserialize.deserialize Samples.needs_key inherited).1
         = Ok (Deserialize.PlainObject []))
  /\ (Deserialize._model empty = Some ""
      /\ (Deserialize.deserialize Samples.needs_key empty).1
         = Ok (Deserialize.Instance "OpenAI" [("openAIApiKey", JStr "k")])
      /\ Deserialize.constructs
           (Deserialize.deserialize Samples.needs_key empty).2 = true).
Proof.
  vm_compute. repeat split; discriminate.
Qed.

Lemma C9_witness :
  exists r b',
    LLM._generate shout ["a"; "b"] None None 0 = (Ok r, b')
    /\ generations r
       = [[mkGeneration "<a>" None]; [mkGeneration "<b>" None]].
Proof.
  destruct (C9_adapter_wraps_each_answer shout ["a"; "b"] None None 0)
    as [_ Htotal].
  destruct Htotal as (r & b' & Hgen).
  - intros p b0. eexists _, _. reflexivity.
  - exists r, b'. split; [exact Hgen|].
    vm_compute in Hgen. by injection Hgen as <- _.
Defined.

Lemma C10_witness :
  exists uncached w2 merged w',
    _generateUncached Demo.configure echo_llm ["p1"; "p3"] None None
      (mkWorld (Some cache2) 0
         (List.map (fun p => EvLookup p key0) batch) 0)
    = (Ok uncached, w2)
    /\ __run uncached = Some (mkRunInfo 0)
    /\ generate Demo.configure echo_llm (Prompts batch) None None [0; 1; 2]
         (world (Some cache2)) = (Ok merged, w')
    /\ __run merged = None.
Proof.
  destruct (@C10_cached_result_drops_run Store _ nat Demo.configure echo_llm
              batch None None [0; 1; 2] (world (Some cache2)) cache2
              (echo_result ["p1"; "p3"] None) 1)
    as (uncached & w2 & merged & w' & Hunc & Hrun & Hgen & _ & Hnone).
  - reflexivity.
  - vm_compute. discriminate.
  - vm_compute. reflexivity.
  - exists uncached, w2, merged, w'.
    split; [exact Hunc|]. split; [exact Hrun|]. split; [exact Hgen|].
    exact Hnone.
Defined.

End Concrete.

(** * Further properties of the orchestrator *)

Section MoreOrchestrator.

Local Open Scope list_scope.

Context {C : Type} `{BaseCache C} {B : Type}.

Variable configure :
  option Callbacks -> option (list BaseCallbackHandler) -> bool ->
  option CallbackManager.

Implicit Types (w : World C B) (this : BaseLLM B) (c : C).
Implicit Types (prompts : list string) (stop : option (list string)).
Implicit Types (cbs : option Callbacks) (settled missing : list nat).

(** X1.  Without a cache, [generate] is the uncached path: it returns the
    backend's output with the run-correlation field of the run handle, or
    fails with the backend's failure, and its only interactions are those
    of the uncached path, with the whole batch handed to the backend in
    input order. *)
Theorem generate_without_cache_is_uncached this prompts stop cbs settled w :
  let run := run_handle configure this cbs w in
  let rb := _generate this prompts stop run (backend w) in
  let rw := generate configure this (Prompts prompts) stop cbs settled w in
  cache w = None ->
  rw.1 = match rb.1 with
         | Ok output =>
             Ok (mkLLMResult (List.map Some (generations output))
                   (llmOutput output)
                   (option_map (fun r => mkRunInfo (runId r)) run))
         | Throw err => Throw err
         end
  /\ events_since w rw.2 = uncached_events this prompts stop run rb.1
  /\ backend_calls (events_since w rw.2) = [prompts]
  /\ cache_writes (events_since w rw.2) = []
  /\ cache rw.2 = None.
Proof.
  intros run rb rw Hc. subst rw. unfold generate. rewrite Hc.
  unfold bind, ret. rewrite generateUncached_eq. cbv zeta.
  fold run. fold rb.
  assert (Hev : forall r b n,
            events_since w
              (mkWorld (cache w) b
                 (log w ++ uncached_events this prompts stop run r) n)
            = uncached_events this prompts stop run r)
    by (intros; apply events_since_app).
  destruct rb.1 as [output|err] eqn:Hrb; simpl; rewrite Hev;
    rewrite backend_calls_uncached, cache_writes_uncached; by rewrite Hc.
Qed.

Lemma splice_skipped missing index results
    (generations0 : list (option (list Generation))) j i :
  NoDup missing ->
  missing !! j = Some i ->
  index <= j ->
  results !! (j - index) = None ->
  splice missing index results generations0 !! i = generations0 !! i.
Proof.
  intros Hnd Hj. revert index generations0.
  induction results as [|g0 rest IH]; intros index generations0 Hle Hnone;
    [done|]. simpl.
  destruct (decide (j = index)) as [->|Hne].
  { by rewrite Nat.sub_diag in Hnone. }
  replace (j - index) with (S (j - S index)) in Hnone by lia.
  simpl in Hnone. rewrite IH by (done || lia).
  destruct (missing !! index) as [i'|] eqn:Hi'; [|done].
  apply list_lookup_insert_ne. intros ->.
  pose proof (NoDup_lookup _ _ _ _ Hnd Hj Hi'). lia.
Qed.

Section Merged.

Variables (prompts : list string) (settled : list nat) (c : C) (key : string)
  (results : list (list Generation)).

Let hits := List.map (fun p => cache_lookup c p key) prompts.
Let missing := missingPromptIndices hits settled.

Hypothesis settled_ok : Permutation settled (seq 0 (length prompts)).

Lemma merged_at_hit i g :
  hits !! i = Some (Some g) ->
  splice missing 0 results hits !! i = Some (Some g).
Proof.
  intros Hi. rewrite splice_other; [done|]. intros j _ Hj.
  assert (Hin : In i missing)
    by (apply list_elem_of_In; eapply list_elem_of_lookup_2; exact Hj).
  apply missing_spec in Hin as [_ Hnone]. congruence.
Qed.

Lemma merged_at_miss j i :
  missing !! j = Some i ->
  splice missing 0 results hits !! i = Some (results !! j).
Proof.
  intros Hj.
  assert (Hin : In i missing)
    by (apply list_elem_of_In; eapply list_elem_of_lookup_2; exact Hj).
  apply missing_spec in Hin as [_ Hnone].
  pose proof (missing_NoDup hits settled _ settled_ok) as Hnd.
  destruct (results !! j) as [g|] eqn:Hg.
  - apply (splice_at missing 0 results hits j i g); try done; try lia.
    + by rewrite Nat.sub_0_r.
    + by apply lookup_lt_Some in Hnone.
  - rewrite (splice_skipped missing 0 results hits j i); try done; try lia.
    by rewrite Nat.sub_0_r.
Qed.

Lemma miss_has_position i :
  hits !! i = Some None -> exists j, missing !! j = Some i.
Proof.
  intros Hnone.
  assert (Hin : In i missing).
  { apply missing_spec. split; [|done].
    apply list_elem_of_In. rewrite settled_ok. apply elem_of_seq.
    apply lookup_lt_Some in Hnone. unfold hits in Hnone.
    rewrite length_map in Hnone. lia. }
  apply list_elem_of_In, list_elem_of_lookup_1 in Hin. exact Hin.
Qed.

End Merged.

(** X2.  On the cached path a result that is returned has exactly one
    slot per input prompt, whatever the order in which the lookups
    settled and however many results the backend answered. *)
Theorem cached_result_has_one_slot_per_prompt
    this prompts stop cbs settled w c merged w' :
  cache w = Some c ->
  generate configure this (Prompts prompts) stop cbs settled w
    = (Ok merged, w') ->
  length (generations merged) = length prompts.
Proof.
  intros Hc Hgen.
  rewrite (generate_cached_eq configure this prompts stop cbs settled w c Hc)
    in Hgen. cbv zeta in Hgen.
  destruct (missingPromptIndices _ settled) as [|i0 rest].
  - injection Hgen as <- _. simpl. by rewrite length_map.
  - destruct (_generateUncached _ _ _ _ _ _) as [[results|err] w2];
      [|discriminate].
    injection Hgen as <- _. simpl. by rewrite splice_length, length_map.
Qed.

(** X3.  On the cached path, when the backend answers, the slot of each
    miss holds the result at the position its prompt had in the backend's
    batch, and [null] when the backend answered no result at that
    position: a backend that answers too few results leaves the
    remaining misses empty instead of making [generate] fail. *)
Theorem cached_result_follows_backend_positions
    this prompts stop cbs settled w c results b' :
  let key := llmStringKey (_identifyingParams this) (_llmType this) stop in
  let hits := List.map (fun p => cache_lookup c p key) prompts in
  let missing := missingPromptIndices hits settled in
  let sub := List.map (fun i => default "" (prompts !! i)) missing in
  cache w = Some c ->
  Permutation settled (seq 0 (length prompts)) ->
  missing <> [] ->
  _generate this sub stop (run_handle configure this cbs w) (backend w)
    = (Ok results, b') ->
  exists merged w',
    generate configure this (Prompts prompts) stop cbs settled w
      = (Ok merged, w')
    /\ forall j i, missing !! j = Some i ->
         generations merged !! i = Some (generations results !! j).
Proof.
  intros key hits missing sub Hc Hperm Hm Hback.
  eexists _, _. split.
  { exact (generate_backend_ok configure this prompts stop cbs settled w c Hc
             results b' Hm Hback). }
  intros j i Hj. simpl. by apply merged_at_miss.
Qed.

(** X4.  When the backend fails on the cached path, [generate] fails with
    the backend's failure after the lookups and one backend invocation;
    nothing is written and the cache is left as it was. *)
Theorem cached_backend_failure_writes_nothing
    this prompts stop cbs settled w c err b' :
  let key := llmStringKey (_identifyingParams this) (_llmType this) stop in
  let hits := List.map (fun p => cache_lookup c p key) prompts in
  let missing := missingPromptIndices hits settled in
  let sub := List.map (fun i => default "" (prompts !! i)) missing in
  cache w = Some c ->
  missing <> [] ->
  _generate this sub stop (run_handle configure this cbs w) (backend w)
    = (Throw err, b') ->
  exists w',
    generate configure this (Prompts prompts) stop cbs settled w
      = (Throw err, w')
    /\ cache w' = Some c
    /\ cache_writes (events_since w w') = []
    /\ backend_calls (events_since w w') = [sub].
Proof.
  intros key hits missing sub Hc Hm Hback. eexists. split.
  { exact (generate_backend_throws configure this prompts stop cbs settled w c
             Hc err b' Hm Hback). }
  split; [done|]. rewrite events_since_app.
  rewrite cache_writes_app, cache_writes_lookups, cache_writes_uncached.
  rewrite backend_calls_app, backend_calls_lookups, backend_calls_uncached.
  by split.
Qed.

(** X5.  For a backend that answers every prompt on its own, the merged
    sequence does not depend on the order in which the lookups settle:
    each slot holds the cached list of its prompt when there is one, and
    the backend's answer for its prompt otherwise. *)
Theorem merged_result_independent_of_settling
    this prompts stop cbs settled w c
    (answer : string -> list Generation) (meta : option Obj) :
  let key := llmStringKey (_identifyingParams this) (_llmType this) stop in
  cache w = Some c ->
  Permutation settled (seq 0 (length prompts)) ->
  (forall ps run b,
     (_generate this ps stop run b).1
     = Ok (mkLLMResult (List.map answer ps) meta None)) ->
  exists merged w',
    generate configure this (Prompts prompts) stop cbs settled w
      = (Ok merged, w')
    /\ generations merged = merged_pointwise c key answer prompts.
Proof.
  intros key Hc Hperm Hpoint.
  set (hits := List.map (fun p => cache_lookup c p key) prompts).
  set (missing := missingPromptIndices hits settled).
  set (sub := List.map (fun i => default "" (prompts !! i)) missing).
  assert (Hslots : forall results,
            (forall j i p, missing !! j = Some i -> prompts !! i = Some p ->
                           results !! j = Some (answer p)) ->
            splice missing 0 results hits
            = merged_pointwise c key answer prompts).
  { intros results Hres. apply list_eq. intros i.
    unfold merged_pointwise. rewrite list_lookup_fmap.
    destruct (prompts !! i) as [p|] eqn:Hp; simpl.
    - assert (Hhit : hits !! i = Some (cache_lookup c p key))
        by (unfold hits; by rewrite list_lookup_fmap, Hp).
      destruct (cache_lookup c p key) as [g|] eqn:Hlook.
      + by apply merged_at_hit.
      + destruct (miss_has_position prompts settled c key Hperm i Hhit)
          as [j Hj].
        etrans; [exact (merged_at_miss prompts settled c key results
                          Hperm j i Hj)|].
        by rewrite (Hres j i p Hj Hp).
    - apply lookup_ge_None. rewrite splice_length. unfold hits.
      rewrite length_map. by apply lookup_ge_None. }
  destruct (decide (missing = [])) as [Hm|Hm].
  - eexists _, _. split.
    { exact (generate_all_hits configure this prompts stop cbs settled w c
               Hc Hm). }
    simpl. rewrite <- (Hslots []); [done|].
    intros j i p Hj. fold missing in Hm. rewrite Hm in Hj. done.
  - destruct (_generate this sub stop (run_handle configure this cbs w)
                (backend w)) as [r b'] eqn:Hback.
    pose proof (Hpoint sub (run_handle configure this cbs w) (backend w))
      as Hr. rewrite Hback in Hr. simpl in Hr. subst r.
    eexists _, _. split.
    { exact (generate_backend_ok configure this prompts stop cbs settled w c
               Hc _ b' Hm Hback). }
    simpl. apply Hslots. intros j i p Hj Hp.
    rewrite list_lookup_fmap. unfold sub. rewrite list_lookup_fmap.
    fold hits. fold missing. rewrite Hj. simpl. by rewrite Hp.
Qed.

End MoreOrchestrator.

(** * Memoisation through a lawful cache *)

Section Memo.

Local Open Scope list_scope.

Context {C : Type} `{BaseCache C} {B : Type}.

Variable configure :
  option Callbacks -> option (list BaseCallbackHandler) -> bool ->
  option CallbackManager.

Hypothesis lawful : lawful_cache C.

Implicit Types (w : World C B) (this : BaseLLM B) (c : C).
Implicit Types (prompts : list string) (stop : option (list string)).
Implicit Types (cbs : option Callbacks) (settled missing : list nat).
Implicit Types (ws : list (option string * string * list Generation)).

Lemma apply_writes_other ws c p k :
  (forall x, In x ws -> write_key x <> (Some p, k)) ->
  cache_lookup (apply_writes ws c) p k = cache_lookup c p k.
Proof.
  revert c. induction ws as [|x ws IH]; intros c Hother; [done|].
  unfold apply_writes in *. simpl.
  rewrite IH by (intros y Hy; apply Hother; by right).
  destruct lawful as [_ Hne]. apply Hne.
  intros Heq. apply (Hother x); [by left|]. by rewrite Heq.
Qed.

Lemma apply_writes_written ws c x p k :
  In x ws -> write_key x = (Some p, k) ->
  is_Some (cache_lookup (apply_writes ws c) p k).
Proof.
  revert c x. induction ws as [|x0 ws IH]; intros c x Hin Hkey; [done|].
  destruct (decide (Exists (fun y => write_key y = (Some p, k)) ws))
    as [Hlater|Hnone].
  - apply Exists_exists in Hlater as (y & Hy & Hykey).
    unfold apply_writes in *. simpl.
    eapply IH; [apply list_elem_of_In; exact Hy | exact Hykey].
  - assert (Hx0 : x0 = x).
    { destruct Hin as [Heq|Hin]; [done|]. exfalso. apply Hnone.
      apply Exists_exists. exists x. split; [by apply list_elem_of_In|done]. }
    subst x0. unfold apply_writes. simpl.
    fold (apply_writes ws (cache_update c x.1.1 x.1.2 x.2)).
    rewrite apply_writes_other.
    + unfold write_key in Hkey. injection Hkey as -> ->.
      destruct lawful as [Heq _]. rewrite Heq. by eexists.
    + intros y Hy Hykey. apply Hnone. apply Exists_exists.
      exists y. split; [by apply list_elem_of_In|done].
Qed.

Lemma apply_writes_last ws c p k g :
  NoDup (List.map write_key ws) ->
  In (Some p, k, g) ws ->
  cache_lookup (apply_writes ws c) p k = Some g.
Proof.
  revert c. induction ws as [|x ws IH]; intros c Hnd Hin; [done|].
  simpl in Hnd. apply NoDup_cons in Hnd as [Hfresh Hnd].
  unfold apply_writes. simpl.
  fold (apply_writes ws (cache_update c x.1.1 x.1.2 x.2)).
  destruct Hin as [->|Hin].
  - rewrite apply_writes_other.
    + simpl. destruct lawful as [Heq _]. apply Heq.
    + intros y Hy Hykey. apply Hfresh. simpl. unfold write_key at 1. simpl.
      rewrite <- Hykey. apply list_elem_of_In, in_map, Hy.
  - by apply IH.
Qed.

Lemma no_miss_when_all_found c key prompts settled :
  (forall p, In p prompts -> is_Some (cache_lookup c p key)) ->
  missingPromptIndices (List.map (fun p => cache_lookup c p key) prompts)
    settled = [].
Proof.
  intros Hall.
  destruct (missingPromptIndices _ settled) as [|i rest] eqn:Hmi; [done|].
  assert (Hin : In i (missingPromptIndices
                        (List.map (fun p => cache_lookup c p key) prompts)
                        settled))
    by (rewrite Hmi; by left).
  apply missing_spec in Hin as [_ Hnone].
  rewrite list_lookup_fmap in Hnone.
  destruct (prompts !! i) as [p|] eqn:Hp; [|discriminate].
  simpl in Hnone. injection Hnone as Hnone.
  destruct (Hall p) as [g Hg]; [|congruence].
  apply list_elem_of_In. by eapply list_elem_of_lookup_2.
Qed.

(** Every write of a call is filed under the call's key, and under the
    text of a prompt of the batch that missed, or under no prompt. *)
Lemma writes_are_for_misses c key prompts settled index results x :
  let hits := List.map (fun p => cache_lookup c p key) prompts in
  let missing := missingPromptIndices hits settled in
  In x (writes_from prompts key missing index results) ->
  x.1.2 = key
  /\ forall s, x.1.1 = Some s ->
       In s prompts /\ cache_lookup c s key = None.
Proof.
  intros hits missing Hin. destruct x as [[op k] v].
  apply writes_from_In in Hin as [-> Hp]. split; [done|].
  intros s Hs. simpl in Hs. destruct (Hp s Hs) as (i & Hi & Hpi).
  apply missing_spec in Hi as [_ Hnone].
  unfold hits in Hnone. rewrite list_lookup_fmap, Hpi in Hnone.
  simpl in Hnone. split; [|by injection Hnone].
  apply list_elem_of_In. by eapply list_elem_of_lookup_2.
Qed.

(** X6.  With a lawful cache, [generate] changes what the cache answers
    only for the prompts of the batch that missed, under the key of the
    call: whatever the backend does, every other pair of prompt and key
    is answered after the call as it was before. *)
Theorem generate_changes_only_missed_entries
    this prompts stop cbs settled w c r w' :
  let key := llmStringKey (_identifyingParams this) (_llmType this) stop in
  cache w = Some c ->
  generate configure this (Prompts prompts) stop cbs settled w = (r, w') ->
  exists c',
    cache w' = Some c'
    /\ forall p' k',
         k' <> key \/ ~ In p' prompts \/ is_Some (cache_lookup c p' key) ->
         cache_lookup c' p' k' = cache_lookup c p' k'.
Proof.
  intros key Hc Hgen.
  rewrite (generate_cached_eq configure this prompts stop cbs settled w c Hc)
    in Hgen. cbv zeta in Hgen. fold key in Hgen.
  destruct (missingPromptIndices _ settled) as [|i0 rest] eqn:Hmiss.
  { injection Hgen as _ <-. exists c. by split. }
  rewrite generateUncached_eq in Hgen. cbv zeta in Hgen. simpl in Hgen.
  destruct (_generate this _ stop _ (backend w)) as [[results|err] b'];
    simpl in Hgen.
  - injection Hgen as _ <-. simpl. rewrite Hc. simpl. eexists. split; [done|].
    intros p' k' Hframe. apply apply_writes_other. intros x Hx Hkey.
    rewrite <- Hmiss in Hx.
    apply writes_are_for_misses in Hx as [Hk Hp].
    unfold write_key in Hkey. injection Hkey as Hp' Hk'.
    specialize (Hp p' Hp') as [Hin Hnone].
    destruct Hframe as [Hne|[Hnin|[g Hg]]]; [congruence | done | congruence].
  - injection Hgen as _ <-. simpl. exists c. by split.
Qed.

(** After a call that returned, every prompt of the batch is found in
    the cache, provided the backend answered one result per prompt; and
    when the missed prompts are pairwise different, what is found is what
    the call returned. *)
Lemma cache_after_returning_call
    this prompts stop cbs settled w c merged w1 :
  let key := llmStringKey (_identifyingParams this) (_llmType this) stop in
  let hits := List.map (fun p => cache_lookup c p key) prompts in
  let missing := missingPromptIndices hits settled in
  let sub := List.map (fun i => default "" (prompts !! i)) missing in
  cache w = Some c ->
  Permutation settled (seq 0 (length prompts)) ->
  (forall results b',
     _generate this sub stop (run_handle configure this cbs w) (backend w)
       = (Ok results, b') ->
     length (generations results) = length sub) ->
  generate configure this (Prompts prompts) stop cbs settled w
    = (Ok merged, w1) ->
  exists c1,
    cache w1 = Some c1
    /\ (forall p, In p prompts -> is_Some (cache_lookup c1 p key))
    /\ (NoDup (miss_subset c key prompts) ->
        List.map (fun p => cache_lookup c1 p key) prompts
        = generations merged).
Proof.
  intros key hits missing sub Hc Hperm Hcontract Hgen.
  assert (Hhit_at : forall i p, prompts !! i = Some p ->
            hits !! i = Some (cache_lookup c p key))
    by (intros i p Hp; unfold hits; by rewrite list_lookup_fmap, Hp).
  destruct (decide (missing = [])) as [Hm|Hm].
  { rewrite (generate_all_hits configure this prompts stop cbs settled w c
               Hc Hm) in Hgen.
    injection Hgen as <- <-. simpl. exists c. split; [done|].
    split; [|done].
    intros p Hp. apply list_elem_of_In, list_elem_of_lookup_1 in Hp as [i Hi].
    destruct (cache_lookup c p key) as [g|] eqn:Hlook; [by eexists|].
    destruct (miss_has_position prompts settled c key Hperm i) as [j Hj].
    { fold key. rewrite <- Hlook. by apply Hhit_at. }
    fold key in Hj. fold hits in Hj. fold missing in Hj.
    rewrite Hm in Hj. done. }
  destruct (_generate this sub stop (run_handle configure this cbs w)
              (backend w)) as [[results|err] b'] eqn:Hback.
  2:{ rewrite (generate_backend_throws configure this prompts stop cbs settled
                 w c Hc err b' Hm Hback) in Hgen. discriminate. }
  rewrite (generate_backend_ok configure this prompts stop cbs settled w c Hc
             results b' Hm Hback) in Hgen.
  cbv zeta in Hgen. fold key hits missing sub in Hgen.
  injection Hgen as <- <-. simpl.
  pose proof (Hcontract results b' eq_refl) as Hlen.
  unfold sub in Hlen. rewrite length_map in Hlen.
  set (ws := writes_from prompts key missing 0 (generations results)).
  assert (Hws : forall x, In x ws ->
            x.1.2 = key /\ forall s, x.1.1 = Some s ->
              In s prompts /\ cache_lookup c s key = None)
    by (intros x Hx; by apply (writes_are_for_misses c key prompts settled 0
                                 (generations results))).
  assert (Hwritten : forall j i p, missing !! j = Some i ->
            prompts !! i = Some p ->
            exists g, generations results !! j = Some g
                      /\ In (Some p, key, g) ws).
  { intros j i p Hj Hp.
    destruct (lookup_lt_is_Some_2 (generations results) j) as [g Hg].
    { rewrite Hlen. by apply lookup_lt_Some in Hj. }
    exists g. split; [done|]. unfold ws.
    rewrite writes_from_zip by lia. unfold writes_for.
    apply list_elem_of_In, elem_of_lookup_zip_with.
    exists j, i, g. by rewrite Hp. }
  exists (apply_writes ws c). split; [done|]. split.
  - intros p Hp.
    apply list_elem_of_In, list_elem_of_lookup_1 in Hp as [i Hi].
    destruct (cache_lookup c p key) as [g|] eqn:Hlook.
    + exists g. rewrite apply_writes_other; [done|].
      intros x Hx Hkey. unfold write_key in Hkey. injection Hkey as Hp' _.
      destruct (Hws x Hx) as [_ Hmissed].
      destruct (Hmissed p Hp') as [_ Hnone]. congruence.
    + destruct (miss_has_position prompts settled c key Hperm i) as [j Hj].
      { fold key. rewrite <- Hlook. by apply Hhit_at. }
      destruct (Hwritten j i p Hj Hi) as (g & _ & Hin).
      by apply (apply_writes_written ws c (Some p, key, g)).
  - intros Hdistinct.
    assert (Hnd : NoDup (List.map write_key ws)).
    { apply (NoDup_fmap_1 fst).
      replace (fst <$> List.map write_key ws)
        with (List.map (fun x => x.1.1) ws)
        by (unfold write_key; by rewrite <- list_fmap_compose).
      unfold ws. rewrite writes_from_zip by lia.
      rewrite writes_for_prompts.
      - apply (NoDup_fmap_2 Some).
        apply (NoDup_Permutation_proper _ _
                 (missing_permutation c key prompts settled Hperm)).
        exact Hdistinct.
      - done.
      - intros i Hi. apply missing_spec in Hi as [_ Hnone].
        apply lookup_lt_Some in Hnone. unfold hits in Hnone.
        by rewrite length_map in Hnone. }
    apply list_eq. intros i. rewrite list_lookup_fmap.
    destruct (prompts !! i) as [p|] eqn:Hp; simpl.
    + destruct (cache_lookup c p key) as [g|] eqn:Hlook.
      * symmetry. etrans;
          [apply (merged_at_hit prompts settled c key _ i g);
           fold key; rewrite <- Hlook; by apply Hhit_at|].
        f_equal. symmetry. rewrite apply_writes_other; [done|].
        intros x Hx Hkey. unfold write_key in Hkey. injection Hkey as Hp' _.
        destruct (Hws x Hx) as [_ Hmissed].
        destruct (Hmissed p Hp') as [_ Hnone]. congruence.
      * destruct (miss_has_position prompts settled c key Hperm i)
          as [j Hj].
        { fold key. rewrite <- Hlook. by apply Hhit_at. }
        destruct (Hwritten j i p Hj Hp) as (g & Hg & Hin).
        symmetry. etrans;
          [exact (merged_at_miss prompts settled c key (generations results)
                    Hperm j i Hj)|].
        rewrite Hg. f_equal. symmetry. by apply apply_writes_last.
    + symmetry. apply lookup_ge_None. rewrite splice_length. unfold hits.
      rewrite length_map. by apply lookup_ge_None.
Qed.

(** X7.  With a lawful cache and a backend that answers one result per
    prompt, a call that returned has filled the cache for its whole
    batch: the same call made again, in whatever order its lookups
    settle, is answered from the cache alone, with no backend invocation,
    no notification and no write. *)
Theorem repeated_call_is_served_from_cache
    this prompts stop cbs settled settled' w c merged w1 :
  let key := llmStringKey (_identifyingParams this) (_llmType this) stop in
  let hits := List.map (fun p => cache_lookup c p key) prompts in
  let missing := missingPromptIndices hits settled in
  let sub := List.map (fun i => default "" (prompts !! i)) missing in
  cache w = Some c ->
  Permutation settled (seq 0 (length prompts)) ->
  (forall results b',
     _generate this sub stop (run_handle configure this cbs w) (backend w)
       = (Ok results, b') ->
     length (generations results) = length sub) ->
  generate configure this (Prompts prompts) stop cbs settled w
    = (Ok merged, w1) ->
  exists again w2,
    generate configure this (Prompts prompts) stop cbs settled' w1
      = (Ok again, w2)
    /\ events_since w1 w2 = List.map (fun p => EvLookup p key) prompts
    /\ backend_calls (events_since w1 w2) = []
    /\ cache_writes (events_since w1 w2) = []
    /\ backend w2 = backend w1
    /\ cache w2 = cache w1
    /\ llmOutput again = Some [].
Proof.
  intros key hits missing sub Hc Hperm Hcontract Hgen.
  destruct (cache_after_returning_call this prompts stop cbs settled w c
              merged w1 Hc Hperm Hcontract Hgen) as (c1 & Hc1 & Hall & _).
  pose proof (no_miss_when_all_found c1 key prompts settled' Hall) as Hm.
  eexists _, _. split.
  { exact (generate_all_hits configure this prompts stop cbs settled' w1 c1
             Hc1 Hm). }
  rewrite events_since_app.
  by rewrite backend_calls_lookups, cache_writes_lookups.
Qed.

(** X8.  If moreover the prompts that missed are pairwise different, the
    repeated call returns the very generations the first call returned.
    (A prompt that missed twice in one batch is written twice, and the
    repeated call answers both of its slots with the later write.) *)
Theorem repeated_call_returns_same_generations
    this prompts stop cbs settled settled' w c merged w1 :
  let key := llmStringKey (_identifyingParams this) (_llmType this) stop in
  let hits := List.map (fun p => cache_lookup c p key) prompts in
  let missing := missingPromptIndices hits settled in
  let sub := List.map (fun i => default "" (prompts !! i)) missing in
  cache w = Some c ->
  Permutation settled (seq 0 (length prompts)) ->
  (forall results b',
     _generate this sub stop (run_handle configure this cbs w) (backend w)
       = (Ok results, b') ->
     length (generations results) = length sub) ->
  NoDup (miss_subset c key prompts) ->
  generate configure this (Prompts prompts) stop cbs settled w
    = (Ok merged, w1) ->
  exists again w2,
    generate configure this (Prompts prompts) stop cbs settled' w1
      = (Ok again, w2)
    /\ generations again = generations merged.
Proof.
  intros key hits missing sub Hc Hperm Hcontract Hdistinct Hgen.
  destruct (cache_after_returning_call this prompts stop cbs settled w c
              merged w1 Hc Hperm Hcontract Hgen) as (c1 & Hc1 & Hall & Hsame).
  pose proof (no_miss_when_all_found c1 key prompts settled' Hall) as Hm.
  eexists _, _. split.
  { exact (generate_all_hits configure this prompts stop cbs settled' w1 c1
             Hc1 Hm). }
  simpl. by apply Hsame.
Qed.

End Memo.

(** The map cache keeps the contract. *)
Lemma MapCache_lawful :
  lawful_cache (gmap (option string * string) (list Generation)).
Proof.
  split.
  - intros c p k v. simpl. apply lookup_insert_eq.
  - intros c op k v p' k' Hne. simpl. apply lookup_insert_ne. congruence.
Qed.

(** * The cache key and the order of the parameters *)

Section KeyOrder.

Local Open Scope list_scope.

(** The order of the default comparator, as a relation. *)
Local Abbreviation text_le := (fun a b : string => str_le a b = true).
Local Abbreviation by_text := (fun x y : JsVal => text_le (toString x) (toString y)).

Lemma str_le_trans a b c :
  str_le a b = true -> str_le b c = true -> str_le a c = true.
Proof.
  unfold str_le. revert b c.
  induction a as [|x a IH]; intros [|y b] [|z c]; simpl; try done.
  destruct (Ascii.compare x y) eqn:Hxy; try done;
    destruct (Ascii.compare y z) eqn:Hyz; try done.
  - apply Ascii.compare_eq_iff in Hxy as ->. rewrite Hyz. apply IH.
  - apply Ascii.compare_eq_iff in Hxy as ->. by rewrite Hyz.
  - apply Ascii.compare_eq_iff in Hyz as <-. by rewrite Hxy.
  - assert (Hxz : Ascii.compare x z = Lt).
    { unfold Ascii.compare in *. rewrite N.compare_lt_iff in *. lia. }
    by rewrite Hxz.
Qed.

Lemma str_le_total a b : str_le a b = false -> str_le b a = true.
Proof.
  unfold str_le. rewrite (String.compare_antisym a b).
  by destruct (String.compare b a).
Qed.

Lemma str_le_antisym a b :
  str_le a b = true -> str_le b a = true -> a = b.
Proof.
  unfold str_le. rewrite (String.compare_antisym a b).
  destruct (String.compare b a) eqn:Hc; simpl; try done.
  intros _ _. symmetry. by apply String.compare_eq_iff.
Qed.

#[local] Instance text_le_trans : Transitive text_le.
Proof. intros a b c. apply str_le_trans. Qed.

#[local] Instance text_le_antisym : AntiSymm (=) text_le.
Proof. intros a b. apply str_le_antisym. Qed.

Lemma insert_sorted_perm x l : insert_sorted x l ≡ₚ x :: l.
Proof.
  induction l as [|y l IH]; simpl; [done|].
  destruct (str_le (toString x) (toString y)); [done|].
  rewrite IH. apply Permutation_swap.
Qed.

Lemma insert_sorted_sorted x l :
  Sorted by_text l -> Sorted by_text (insert_sorted x l).
Proof.
  induction l as [|y l IH]; intros Hl; simpl.
  - by repeat constructor.
  - destruct (str_le (toString x) (toString y)) eqn:Hxy.
    + constructor; [done|]. by constructor.
    + apply Sorted_inv in Hl as [Hl Hhd]. constructor; [by apply IH|].
      destruct l as [|z l]; simpl.
      * constructor. by apply str_le_total.
      * destruct (str_le (toString x) (toString z)); constructor.
        -- by apply str_le_total.
        -- by inversion Hhd.
Qed.

Lemma sort_perm l : sort l ≡ₚ l.
Proof.
  unfold sort. induction l as [|x l IH]; simpl; [done|].
  by rewrite insert_sorted_perm, IH.
Qed.

Lemma sort_sorted l : Sorted by_text (sort l).
Proof.
  unfold sort. induction l as [|x l IH]; simpl; [constructor|].
  by apply insert_sorted_sorted.
Qed.

(** Sorting two rearrangements of the same entries gives the same
    texts. *)
Lemma sort_texts_unique l l' :
  l ≡ₚ l' -> toString <$> sort l = toString <$> sort l'.
Proof.
  intros Hp. apply (Sorted_unique text_le).
  - apply (Sorted_fmap _ by_text); [done | apply sort_sorted].
  - apply (Sorted_fmap _ by_text); [done | apply sort_sorted].
  - by rewrite !sort_perm, Hp.
Qed.

Lemma entries_print_alike (o : Obj) :
  elemToString <$> entries o = toString <$> entries o.
Proof. induction o as [|[k v] o IH]; [done|]. simpl. by f_equal. Qed.

Lemma print_alike_perm l l' :
  l ≡ₚ l' ->
  elemToString <$> l' = toString <$> l' ->
  Forall (fun e => elemToString e = toString e) l.
Proof.
  intros Hp Heq. rewrite Hp. clear Hp.
  induction l' as [|e l' IH]; [constructor|].
  simpl in Heq. injection Heq as He Heq. constructor; [done|by apply IH].
Qed.

(** The key is the comma-separated list of the sorted entry texts. *)
Lemma key_as_sorted_texts params ty stop :
  llmStringKey params ty stop
  = join "," (toString <$>
                sort (entries (set "stop" (stopValue stop)
                                 (serialize params ty)))).
Proof.
  unfold llmStringKey. cbv zeta. rewrite toString_array. f_equal.
  set (es := entries _).
  assert (Hall : Forall (fun e => elemToString e = toString e) (sort es)).
  { apply (print_alike_perm _ es); [apply sort_perm|].
    apply entries_print_alike. }
  induction Hall as [|e l He _ IH]; [done|]. simpl. by rewrite He, IH.
Qed.

Lemma set_keys_elem k v (o : Obj) x :
  x ∈ (set k v o).*1 -> x = k \/ x ∈ o.*1.
Proof.
  induction o as [|[k' v'] o IH]; simpl.
  - intros Hx. apply list_elem_of_singleton in Hx. by left.
  - destruct (String.eqb k k') eqn:Hk; simpl.
    + apply String.eqb_eq in Hk as <-. intros Hx.
      apply elem_of_cons in Hx as [->|Hx]; [by left|].
      right. by apply elem_of_cons; right.
    + intros Hx. apply elem_of_cons in Hx as [->|Hx].
      * right. by apply elem_of_cons; left.
      * destruct (IH Hx) as [->|Hin]; [by left|].
        right. by apply elem_of_cons; right.
Qed.

Lemma set_keys_NoDup k v (o : Obj) : NoDup o.*1 -> NoDup (set k v o).*1.
Proof.
  induction o as [|[k' v'] o IH]; simpl; intros Hnd.
  - apply NoDup_singleton.
  - apply NoDup_cons in Hnd as [Hfresh Hnd].
    destruct (String.eqb k k') eqn:Hk; simpl.
    + apply String.eqb_eq in Hk as <-. by apply NoDup_cons.
    + apply NoDup_cons. split; [|by apply IH].
      intros Hin. apply set_keys_elem in Hin as [->|Hin]; [|done].
      by rewrite String.eqb_refl in Hk.
Qed.

Lemma set_as_filter k v (o : Obj) :
  NoDup o.*1 ->
  set k v o
  ≡ₚ (k, v) :: List.filter (fun kv => negb (String.eqb k kv.1)) o.
Proof.
  induction o as [|[k' v'] o IH]; simpl; intros Hnd; [done|].
  apply NoDup_cons in Hnd as [Hfresh Hnd].
  destruct (String.eqb k k') eqn:Hk; simpl.
  - apply String.eqb_eq in Hk as <-. constructor.
    clear IH Hnd. induction o as [|[k0 v0] o IH]; [done|]. simpl.
    simpl in Hfresh. apply not_elem_of_cons in Hfresh as [Hne Hfresh].
    apply String.eqb_neq in Hne. rewrite Hne. simpl.
    constructor. by apply IH.
  - rewrite (IH Hnd). apply Permutation_swap.
Qed.

Lemma set_Permutation k v (o o' : Obj) :
  NoDup o.*1 -> o ≡ₚ o' -> set k v o ≡ₚ set k v o'.
Proof.
  intros Hnd Hp.
  assert (Hnd' : NoDup o'.*1) by (by rewrite <- Hp).
  rewrite (set_as_filter k v o Hnd), (set_as_filter k v o' Hnd').
  constructor. by apply filter_Permutation_bool.
Qed.

(** X9.  The cache key does not depend on the order in which the
    identifying parameters of the model are listed. *)
Theorem key_ignores_parameter_order (params params' : Obj) ty stop :
  NoDup params.*1 ->
  params ≡ₚ params' ->
  llmStringKey params ty stop = llmStringKey params' ty stop.
Proof.
  intros Hnd Hp. rewrite !key_as_sorted_texts. f_equal.
  apply sort_texts_unique. unfold entries, serialize.
  apply Permutation_map.
  apply set_Permutation; [by do 2 apply set_keys_NoDup|].
  apply set_Permutation; [by apply set_keys_NoDup|].
  by apply set_Permutation.
Qed.

(** X10.  Leaving the stop list out and passing an empty stop list give
    the same cache key, for every model. *)
Theorem key_same_without_stop_and_with_empty_stop (params : Obj) ty :
  llmStringKey params ty None = llmStringKey params ty (Some []).
Proof. by apply key_reads_stop_as_text. Qed.

Lemma getProp_set_eq k v (o : Obj) : getProp k (set k v o) = Some v.
Proof.
  induction o as [|[k' v'] o IH]; simpl.
  - by rewrite String.eqb_refl.
  - destruct (String.eqb k k') eqn:Hk; simpl.
    + by rewrite String.eqb_refl.
    + by rewrite Hk.
Qed.

Lemma getProp_set_ne k k' v (o : Obj) :
  k <> k' -> getProp k (set k' v o) = getProp k o.
Proof.
  intros Hne. apply String.eqb_neq in Hne.
  induction o as [|[k0 v0] o IH]; simpl.
  - by rewrite Hne.
  - destruct (String.eqb k' k0) eqn:Hk; simpl.
    + apply String.eqb_eq in Hk as <-. by rewrite Hne.
    + by rewrite IH.
Qed.

(** X11.  A serialised model always carries the instance's own
    discriminators, even when its identifying parameters define
    properties of the same names, and every other identifying parameter
    is carried over unchanged. *)
Theorem serialize_discriminators_win (params : Obj) ty :
  getProp "_type" (serialize params ty) = Some (JStr ty)
  /\ getProp "_model" (serialize params ty) = Some (JStr "base_llm")
  /\ forall k, k <> "_type" -> k <> "_model" ->
       getProp k (serialize params ty) = getProp k params.
Proof.
  unfold serialize. split; [|split].
  - rewrite getProp_set_ne by done. apply getProp_set_eq.
  - apply getProp_set_eq.
  - intros k Ht Hm. by rewrite !getProp_set_ne.
Qed.

End KeyOrder.

(** * Loading back what was serialised *)

Section LoadingBack.

Import Deserialize.

Local Open Scope list_scope.

Variable construct : string -> Obj -> option Exn.

Lemma get_cases t :
  get t = if String.eqb (template t) "openai" then Own "OpenAI"
          else if mem (template t) Object_prototype
               then Inherited (template t) else Undefined.
Proof.
  unfold get. simpl. by destruct (String.eqb (template t) "openai").
Qed.

Lemma model_check_passes m :
  truthy m && negb (String.eqb (template m) "base_llm") = false
  <-> truthy m = false \/ m = Some "base_llm".
Proof.
  split.
  - destruct (truthy m) eqn:Ht; [|by left]. simpl.
    destruct (String.eqb (template m) "base_llm") eqn:Hb; [|discriminate].
    intros _. right. apply String.eqb_eq in Hb.
    destruct m as [s|]; [|discriminate]. simpl in Hb. by subst s.
  - intros [Hf | ->]; [by rewrite Hf | reflexivity].
Qed.

(** X12.  [deserialize] answers a model instance exactly for the records
    whose model discriminator is missing, empty or base_llm, whose type
    discriminator is openai and whose remaining properties the [OpenAI]
    constructor accepts; the instance is then an [OpenAI] built from the
    remaining properties. *)
Theorem deserialize_loads_only_openai (data : SerializedLLM) cls args steps :
  deserialize construct data = (Ok (Instance cls args), steps)
  <-> (truthy (_model data) = false \/ _model data = Some "base_llm")
      /\ _type data = Some "openai"
      /\ construct "OpenAI" (rest data) = None
      /\ cls = "OpenAI" /\ args = rest data
      /\ steps = [Import "./openai.js"; New "OpenAI" (rest data)].
Proof.
  unfold deserialize. rewrite get_cases. split.
  - destruct (truthy (_model data)
              && negb (String.eqb (template (_model data)) "base_llm"))
      eqn:Hg; [discriminate|].
    apply model_check_passes in Hg.
    destruct (String.eqb (template (_type data)) "openai") eqn:Hty.
    + apply String.eqb_eq in Hty.
      destruct (construct "OpenAI" (rest data)) eqn:Hnew; [discriminate|].
      intros [= <- <- <-].
      destruct (_type data) as [t|]; [|discriminate]. simpl in Hty.
      by subst t.
    + destruct (mem _ _); [|discriminate].
      by destruct (String.eqb _ "constructor").
  - intros (Hmodel & Hty & Hnew & -> & -> & ->).
    apply model_check_passes in Hmodel. rewrite Hmodel, Hty. simpl.
    by rewrite Hnew.
Qed.

Lemma filter_set_discriminator k v (o : Obj) :
  is_discriminator (k, v) = true ->
  List.filter (fun kv => negb (is_discriminator kv)) (set k v o)
  = List.filter (fun kv => negb (is_discriminator kv)) o.
Proof.
  intros Hk. induction o as [|[k' v'] o IH]; simpl.
  - by rewrite Hk.
  - destruct (String.eqb k k') eqn:Heq; simpl.
    + apply String.eqb_eq in Heq as <-. rewrite Hk.
      unfold is_discriminator in *. simpl in *. by rewrite Hk.
    + by rewrite IH.
Qed.

Lemma destructure_serialize (params : Obj) ty :
  destructure (serialize params ty)
  = mkSerialized (Some "base_llm") (Some ty)
      (List.filter (fun kv => negb (is_discriminator kv)) params).
Proof.
  unfold destructure.
  assert (Hty : getProp "_type" (serialize params ty) = Some (JStr ty)).
  { unfold serialize. rewrite getProp_set_ne by done. apply getProp_set_eq. }
  assert (Hmodel : getProp "_model" (serialize params ty)
                   = Some (JStr "base_llm"))
    by apply getProp_set_eq.
  rewrite Hty, Hmodel. simpl. f_equal.
  unfold serialize. by rewrite !filter_set_discriminator.
Qed.

(** X13.  [deserialize] applied to a serialised model of type openai
    passes the model and type checks and invokes the [OpenAI] constructor
    on the identifying parameters, the two discriminators taken out: it
    answers the instance when the constructor accepts them, and fails
    with the constructor's failure otherwise. *)
Theorem serialized_openai_reaches_constructor (params : Obj) :
  let args := List.filter (fun kv => negb (is_discriminator kv)) params in
  deserializeObj construct (serialize params "openai")
  = (match construct "OpenAI" args with
     | None => Ok (Instance "OpenAI" args)
     | Some err => Throw err
     end,
     [Import "./openai.js"; New "OpenAI" args]).
Proof.
  intros args. unfold deserializeObj. rewrite destructure_serialize.
  reflexivity.
Qed.

(** X14.  A serialised model of any other type does not load back: when
    the type is not the name of a property inherited from
    [Object.prototype], [deserialize] refuses it as an unknown type and
    constructs nothing. *)
Theorem serialized_other_type_is_refused (params : Obj) ty :
  ty <> "openai" ->
  mem ty Object_prototype = false ->
  deserializeObj construct (serialize params ty)
  = (Throw (JsError ("Cannot load  LLM with type " ++ ty)%string),
     [Import "./openai.js"]).
Proof.
  intros Hne Hproto. unfold deserializeObj. rewrite destructure_serialize.
  unfold deserialize. rewrite get_cases. cbn [_type _model rest template].
  apply String.eqb_neq in Hne. rewrite Hne, Hproto. reflexivity.
Qed.

End LoadingBack.

(** * The adapter and the single-prompt call *)

Section AdapterMore.

Local Open Scope list_scope.

Context {C : Type} `{BaseCache C} {B : Type}.

Variable configure :
  option Callbacks -> option (list BaseCallbackHandler) -> bool ->
  option CallbackManager.

Variable _call :
  string -> option (list string) -> option CallbackManagerForLLMRun ->
  B -> Outcome string * B.

Lemma loop_throws prompts stop run (acc : list (list Generation)) (b : B)
    err b' :
  LLM.loop _call prompts stop run acc b = (Throw err, b')
  <-> exists pre p post texts b1,
        prompts = pre ++ p :: post
        /\ LLM.answers _call stop run b pre texts b1
        /\ _call p stop run b1 = (Throw err, b').
Proof.
  split.
  - revert acc b. induction prompts as [|p ps IH]; intros acc b; simpl;
      [discriminate|].
    destruct (_call p stop run b) as [[t|e] b1] eqn:Hcall.
    + intros Hloop.
      destruct (IH _ _ Hloop) as (pre & q & post & texts & b2 & -> & Hans & Hq).
      exists (p :: pre), q, post, (t :: texts), b2.
      split; [done|]. split; [by econstructor|done].
    + intros [= <- <-]. exists [], p, ps, [], b.
      split; [done|]. split; [constructor|done].
  - intros (pre & p & post & texts & b1 & -> & Hans & Hp).
    revert acc. induction Hans as [b0|b0 q t b2 qs ts b3 Hq Hans IH];
      intros acc; simpl.
    + by rewrite Hp.
    + rewrite Hq. by apply IH.
Qed.

(** X15.  The adapter's batch generation fails exactly when the
    single-prompt operation fails for some prompt after answering all the
    prompts before it; it then fails with that failure, and the
    operation is not invoked for the prompts after it. *)
Theorem adapter_fails_at_first_failing_prompt prompts stop run (b : B)
    err b' :
  LLM._generate _call prompts stop run b = (Throw err, b')
  <-> exists pre p post texts b1,
        prompts = pre ++ p :: post
        /\ LLM.answers _call stop run b pre texts b1
        /\ _call p stop run b1 = (Throw err, b').
Proof. apply loop_throws. Qed.

(** X16.  On an adapter without a cache, [call] answers what the
    single-prompt operation answers for the prompt, its string or its
    failure, and leaves the backend as that one invocation left it. *)
Theorem call_on_adapter_is_the_single_prompt_operation
    nm cbs0 vb params ty prompt stop cbs (w : World C B) :
  let this := LLM.make _call nm cbs0 vb params ty in
  let run := run_handle configure this cbs w in
  let rw := call configure this prompt stop cbs w in
  cache w = None ->
  rw.1 = (_call prompt stop run (backend w)).1
  /\ backend rw.2 = (_call prompt stop run (backend w)).2.
Proof.
  intros this run rw Hc. subst rw.
  destruct w as [oc b l n]. simpl in Hc. subst oc.
  unfold call, bind at 1, generate. cbn [cache].
  unfold bind, ret. rewrite generateUncached_eq. cbv zeta.
  fold run. simpl. unfold LLM._generate. simpl.
  destruct (_call prompt stop run b) as [[t|e] b1]; simpl; by split.
Qed.

(** X17.  With a cache that holds a non-empty candidate list for the
    prompt, [call] answers the text of the first cached candidate after
    one lookup, without invoking the backend; when the cached list is
    empty, [call] fails with a type error instead. *)
Theorem call_answers_from_cache
    (this : BaseLLM B) prompt stop cbs (w : World C B) (c : C) cached :
  let key := llmStringKey (_identifyingParams this) (_llmType this) stop in
  let rw := call configure this prompt stop cbs w in
  cache w = Some c ->
  cache_lookup c prompt key = Some cached ->
  events_since w rw.2 = [EvLookup prompt key]
  /\ backend rw.2 = backend w
  /\ match cached with
     | g :: _ => rw.1 = Ok (text g)
     | [] => exists msg, rw.1 = Throw (JsTypeError msg)
     end.
Proof.
  intros key rw Hc Hhit. subst rw. unfold call, bind.
  assert (Hm : missingPromptIndices
                 (List.map (fun p => cache_lookup c p key) [prompt]) [0]
               = []).
  { unfold missingPromptIndices. simpl. fold key. by rewrite Hhit. }
  rewrite (generate_all_hits configure this [prompt] stop cbs [0] w c Hc Hm).
  simpl. fold key. rewrite Hhit.
  destruct cached as [|g gs]; simpl; rewrite events_since_app;
    (split; [done|]); (split; [done|]); [by eexists | done].
Qed.

End AdapterMore.

(** * The constructor *)

Section Constructor.

Local Open Scope list_scope.

Lemma getProp_absent k (o : Obj) : k ∉ o.*1 -> getProp k o = None.
Proof.
  induction o as [|[k' v'] o IH]; simpl; [done|].
  intros Hk. apply not_elem_of_cons in Hk as [Hne Hk].
  apply String.eqb_neq in Hne. rewrite Hne. by apply IH.
Qed.

Lemma getProp_spread k (target source : Obj) :
  NoDup source.*1 ->
  getProp k (spread target source)
  = match getProp k source with
    | Some v => Some v
    | None => getProp k target
    end.
Proof.
  unfold spread. revert target.
  induction source as [|[k0 v0] source IH]; intros target Hnd; [done|].
  simpl in Hnd. apply NoDup_cons in Hnd as [Hfresh Hnd].
  simpl. rewrite (IH _ Hnd).
  destruct (String.eqb k k0) eqn:Hk.
  - apply String.eqb_eq in Hk as <-.
    rewrite (getProp_absent k source Hfresh). apply getProp_set_eq.
  - apply String.eqb_neq in Hk.
    destruct (getProp k source); [done|]. by apply getProp_set_ne.
Qed.

(** X18.  In the argument the constructor hands to its base class, a
    [maxConcurrency] given among the remaining parameters takes
    precedence over the deprecated [concurrency]; otherwise
    [maxConcurrency] is [concurrency] when that is a number other than
    zero, and is not set when [concurrency] is zero or missing.  Every
    other parameter is handed over unchanged. *)
Theorem constructor_prefers_maxConcurrency (params : BaseLLMParams) :
  NoDup (p_rest params).*1 ->
  getProp "maxConcurrency" (superArgs params)
  = match getProp "maxConcurrency" (p_rest params) with
    | Some v => Some v
    | None => if number_truthy (p_concurrency params)
              then JNum <$> p_concurrency params
              else None
    end
  /\ forall k, k <> "maxConcurrency" ->
       getProp k (superArgs params) = getProp k (p_rest params).
Proof.
  intros Hnd. unfold superArgs.
  destruct (p_concurrency params) as [z|]; simpl.
  - destruct (negb (Z.eqb z 0)); simpl.
    + split.
      * by rewrite getProp_spread.
      * intros k Hk. rewrite getProp_spread by done.
        destruct (getProp k (p_rest params)); [done|]. simpl.
        apply String.eqb_neq in Hk. by rewrite Hk.
    + split; [by destruct (getProp _ _)|done].
  - split; [by destruct (getProp _ _)|done].
Qed.

End Constructor.

(** * The further properties on concrete calls *)

Section MoreConcrete.

Import Demo Samples.

Local Open Scope list_scope.

Local Abbreviation Store := (gmap (option string * string) (list Generation)).

Lemma echo_one_result_per_prompt ps st run n res n' :
  echo ps st run n = (Ok res, n') -> length (generations res) = length ps.
Proof. intros [= <- <-]. simpl. by rewrite length_map. Qed.

Lemma generate_without_cache_witness :
  backend_calls
    (events_since (world None : World Store nat)
       (generate Demo.configure echo_llm (Prompts batch) None None []
          (world None)).2)
  = [batch]
  /\ cache (generate Demo.configure echo_llm (Prompts batch) None None []
              (world None : World Store nat)).2 = None.
Proof.
  destruct (@generate_without_cache_is_uncached Store _ nat Demo.configure
              echo_llm batch None None [] (world None) eq_refl)
    as (_ & _ & Hcalls & _ & Hcache).
  split; [exact Hcalls | exact Hcache].
Defined.

Lemma one_slot_per_prompt_witness :
  short_call = (Ok short_result, short_call.2)
  /\ length (generations short_result) = 3.
Proof.
  assert (Hfst : short_call.1 = Ok short_result)
    by (vm_compute; reflexivity).
  assert (Hret : short_call = (Ok short_result, short_call.2))
    by (rewrite <- Hfst; apply surjective_pairing).
  split; [exact Hret|].
  exact (@cached_result_has_one_slot_per_prompt Store _ nat Demo.configure
           short_llm batch None None [0; 1; 2] (world (Some cache2))
           cache2 short_result short_call.2 eq_refl Hret).
Defined.

Lemma backend_positions_witness :
  exists merged w',
    generate Demo.configure short_llm (Prompts batch) None None [0; 1; 2]
      (world (Some cache2)) = (Ok merged, w')
    /\ generations merged !! 0 = Some (Some [mkGeneration "p1" None])
    /\ generations merged !! 2 = Some None.
Proof.
  destruct (@cached_result_follows_backend_positions Store _ nat
              Demo.configure short_llm batch None None [0; 1; 2]
              (world (Some cache2)) cache2
              (mkLLMResult [[mkGeneration "p1" None]] None None) 1)
    as (merged & w' & Hgen & Hpos).
  - reflexivity.
  - reflexivity.
  - vm_compute. discriminate.
  - vm_compute. reflexivity.
  - exists merged, w'. split; [exact Hgen|]. split.
    + apply (Hpos 0 0). vm_compute. reflexivity.
    + apply (Hpos 2 2). vm_compute. reflexivity.
Defined.

Lemma backend_failure_witness :
  exists w',
    generate Demo.configure failing_llm (Prompts batch) None None [0; 1; 2]
      (world (Some cache2)) = (Throw (JsError "rate limit"), w')
    /\ cache w' = Some cache2
    /\ cache_writes (events_since (world (Some cache2)) w') = [].
Proof.
  destruct (@cached_backend_failure_writes_nothing Store _ nat
              Demo.configure failing_llm batch None None [0; 1; 2]
              (world (Some cache2)) cache2 (JsError "rate limit") 1)
    as (w' & Hgen & Hcache & Hwrites & _).
  - reflexivity.
  - vm_compute. discriminate.
  - reflexivity.
  - exists w'. split; [exact Hgen|]. split; [exact Hcache | exact Hwrites].
Defined.

Lemma independent_of_settling_witness :
  exists merged w',
    generate Demo.configure echo_llm (Prompts batch) None None [2; 1; 0]
      (world (Some cache2)) = (Ok merged, w')
    /\ generations merged
       = [Some [mkGeneration "p1/" None]; Some cached2;
          Some [mkGeneration "p3/" None]].
Proof.
  destruct (@merged_result_independent_of_settling Store _ nat Demo.configure
              echo_llm batch None None [2; 1; 0] (world (Some cache2)) cache2
              (fun p => [mkGeneration (p ++ "/") None])
              (Some [("tokens", JNum 7)]))
    as (merged & w' & Hgen & Hslots).
  - reflexivity.
  - exact (Permutation_sym (Permutation_rev [0; 1; 2])).
  - intros ps run b. reflexivity.
  - exists merged, w'. split; [exact Hgen|]. rewrite Hslots.
    vm_compute. reflexivity.
Defined.

Lemma only_missed_entries_witness :
  exists c',
    cache first_call.2 = Some c'
    /\ cache_lookup c' "p2" key0 = Some cached2
    /\ cache_lookup c' "p2" "another key" = None.
Proof.
  destruct (@generate_changes_only_missed_entries Store _ nat Demo.configure
              MapCache_lawful echo_llm batch None None [0; 1; 2]
              (world (Some cache2)) cache2 first_call.1 first_call.2)
    as (c' & Hcache & Hframe).
  - reflexivity.
  - apply surjective_pairing.
  - exists c'. split; [exact Hcache|]. split.
    + rewrite Hframe; [vm_compute; reflexivity|].
      right. right. vm_compute. by eexists.
    + rewrite Hframe; [vm_compute; reflexivity|].
      left. vm_compute. discriminate.
Defined.

Lemma first_call_returned : first_call = (Ok first_result, first_call.2).
Proof.
  assert (Hfst : first_call.1 = Ok first_result)
    by (vm_compute; reflexivity).
  rewrite <- Hfst. apply surjective_pairing.
Qed.

Lemma served_from_cache_witness :
  exists again w2,
    generate Demo.configure echo_llm (Prompts batch) None None [2; 1; 0]
      first_call.2 = (Ok again, w2)
    /\ backend_calls (events_since first_call.2 w2) = []
    /\ cache_writes (events_since first_call.2 w2) = [].
Proof.
  destruct (@repeated_call_is_served_from_cache Store _ nat Demo.configure
              MapCache_lawful echo_llm batch None None [0; 1; 2] [2; 1; 0]
              (world (Some cache2)) cache2 first_result first_call.2)
    as (again & w2 & Hgen & _ & Hcalls & Hwrites & _).
  - reflexivity.
  - reflexivity.
  - intros results b'. apply echo_one_result_per_prompt.
  - exact first_call_returned.
  - exists again, w2. split; [exact Hgen|]. split; [exact Hcalls|].
    exact Hwrites.
Defined.

Lemma same_generations_witness :
  exists again w2,
    generate Demo.configure echo_llm (Prompts batch) None None [2; 1; 0]
      first_call.2 = (Ok again, w2)
    /\ generations again = generations first_result.
Proof.
  apply (@repeated_call_returns_same_generations Store _ nat Demo.configure
           MapCache_lawful echo_llm batch None None [0; 1; 2] [2; 1; 0]
           (world (Some cache2)) cache2 first_result first_call.2).
  - reflexivity.
  - reflexivity.
  - intros results b'. apply echo_one_result_per_prompt.
  - vm_compute. apply NoDup_cons. split; [|apply NoDup_singleton].
    intros Hin. apply list_elem_of_singleton in Hin. discriminate.
  - exact first_call_returned.
Defined.

Lemma parameter_order_witness :
  llmStringKey [("temperature", JNum 0); ("model_name", JStr "ada")]
    "openai" None
  = llmStringKey [("model_name", JStr "ada"); ("temperature", JNum 0)]
      "openai" None.
Proof.
  apply key_ignores_parameter_order.
  - simpl. apply NoDup_cons. split; [|apply NoDup_singleton].
    intros Hin. apply list_elem_of_singleton in Hin. discriminate.
  - apply Permutation_swap.
Defined.

Lemma serialize_discriminators_witness :
  getProp "_type" (serialize [("_type", JStr "spoofed"); ("n", JNum 2)] "echo")
  = Some (JStr "echo")
  /\ getProp "n" (serialize [("_type", JStr "spoofed"); ("n", JNum 2)] "echo")
     = Some (JNum 2).
Proof.
  destruct (serialize_discriminators_win
              [("_type", JStr "spoofed"); ("n", JNum 2)] "echo")
    as (Hty & _ & Hother).
  split; [exact Hty|].
  rewrite Hother; [reflexivity | discriminate | discriminate].
Defined.

Lemma loads_only_openai_witness :
  Deserialize.deserialize needs_key
    (Deserialize.mkSerialized None (Some "openai")
       [("openAIApiKey", JStr "k")])
  = (Ok (Deserialize.Instance "OpenAI" [("openAIApiKey", JStr "k")]),
     [Deserialize.Import "./openai.js";
      Deserialize.New "OpenAI" [("openAIApiKey", JStr "k")]]).
Proof.
  apply (deserialize_loads_only_openai needs_key
           (Deserialize.mkSerialized None (Some "openai")
              [("openAIApiKey", JStr "k")])).
  split; [by left|]. by repeat split.
Defined.

Lemma other_type_refused_witness :
  deserializeObj needs_key (serialize [("n", JNum 2)] "echo")
  = (Throw (JsError "Cannot load  LLM with type echo"),
     [Deserialize.Import "./openai.js"]).
Proof.
  apply (serialized_other_type_is_refused needs_key [("n", JNum 2)] "echo").
  - discriminate.
  - reflexivity.
Defined.

Lemma first_failing_prompt_witness :
  LLM._generate picky ["a"; "bad"; "c"] None None 0
  = (Throw (JsError "refused"), 2).
Proof.
  apply (adapter_fails_at_first_failing_prompt picky ["a"; "bad"; "c"]
           None None 0 (JsError "refused") 2).
  exists ["a"], "bad", ["c"], ["<a>"], 1.
  split; [reflexivity|]. split; [|reflexivity].
  apply (LLM.answers_cons picky None None 0 "a" "<a>" 1 [] [] 1);
    [reflexivity | constructor].
Defined.

Lemma call_on_adapter_witness :
  (call Demo.configure (LLM.make shout "shout" None false [] "shout")
     "hello" None None (world None : World Store nat)).1
  = Ok "<hello>".
Proof.
  destruct (@call_on_adapter_is_the_single_prompt_operation Store _ nat
              Demo.configure shout "shout" None false [] "shout" "hello"
              None None (world None) eq_refl)
    as [Hres _].
  exact Hres.
Defined.

Lemma call_from_cache_witness :
  (call Demo.configure echo_llm "p2" None None (world (Some cache2))).1
  = Ok "cached"
  /\ backend (call Demo.configure echo_llm "p2" None None
                (world (Some cache2))).2 = 0.
Proof.
  destruct (@call_answers_from_cache Store _ nat Demo.configure echo_llm
              "p2" None None (world (Some cache2)) cache2 cached2)
    as (_ & Hback & Hres).
  - reflexivity.
  - vm_compute. reflexivity.
  - split; [exact Hres | exact Hback].
Defined.

Lemma constructor_witness :
  getProp "maxConcurrency"
    (superArgs (mkParams (Some 4%Z)
                  [("maxConcurrency", JNum 2); ("verbose", JBool true)]))
  = Some (JNum 2)
  /\ getProp "maxConcurrency"
       (superArgs (mkParams (Some 4%Z) [("verbose", JBool true)]))
     = Some (JNum 4).
Proof.
  assert (Hnd2 : NoDup ["maxConcurrency"; "verbose"]).
  { apply NoDup_cons. split; [|apply NoDup_singleton].
    intros Hin. apply list_elem_of_singleton in Hin. discriminate. }
  destruct (constructor_prefers_maxConcurrency
              (mkParams (Some 4%Z)
                 [("maxConcurrency", JNum 2); ("verbose", JBool true)]) Hnd2)
    as [Hgiven _].
  destruct (constructor_prefers_maxConcurrency
              (mkParams (Some 4%Z) [("verbose", JBool true)])
              (NoDup_singleton "verbose"))
    as [Hdeprecated _].
  split; [exact Hgiven | exact Hdeprecated].
Defined.

End MoreConcrete.

(** * The cached path, whatever the backend answers *)

Section CachedPath.

Local Open Scope list_scope.

Context {C : Type} `{BaseCache C} {B : Type}.

Variable configure :
  option Callbacks -> option (list BaseCallbackHandler) -> bool ->
  option CallbackManager.

Implicit Types (w : World C B) (this : BaseLLM B) (c : C).
Implicit Types (prompts : list string) (stop : option (list string)).
Implicit Types (cbs : option Callbacks) (settled missing : list nat).

(** The call in terms of what the backend answers to the misses. *)
Lemma generate_with_misses this prompts stop cbs settled w c :
  let key := llmStringKey (_identifyingParams this) (_llmType this) stop in
  let hits := List.map (fun p => cache_lookup c p key) prompts in
  let missing := missingPromptIndices hits settled in
  let sub := List.map (fun i => default "" (prompts !! i)) missing in
  let run := run_handle configure this cbs w in
  let rb := _generate this sub stop run (backend w) in
  let rw := generate configure this (Prompts prompts) stop cbs settled w in
  cache w = Some c ->
  missing <> [] ->
  events_since w rw.2
  = List.map (fun p => EvLookup p key) prompts
    ++ uncached_events this sub stop run rb.1
    ++ match rb.1 with
       | Ok results =>
           List.map write_event
             (writes_from prompts key missing 0 (generations results))
       | Throw _ => []
       end
  /\ rw.1 = match rb.1 with
            | Ok results =>
                Ok (mkLLMResult
                      (splice missing 0 (generations results) hits)
                      (Some (default [] (llmOutput results))) None)
            | Throw err => Throw err
            end.
Proof.
  intros key hits missing sub run rb rw Hc Hm. subst rw.
  destruct rb as [[results|err] b'] eqn:Hback.
  - rewrite (generate_backend_ok configure this prompts stop cbs settled w c
               Hc results b' Hm Hback).
    cbv zeta. simpl. rewrite events_since_app. by split.
  - rewrite (generate_backend_throws configure this prompts stop cbs settled
               w c Hc err b' Hm Hback).
    simpl. rewrite events_since_app. by rewrite app_nil_r.
Qed.

(** C1 (amended).  With a cache configured and at least one miss,
    [generate] invokes the backend once, whatever the backend then does,
    with exactly the prompts that missed, ordered as their cache lookups
    settled: a rearrangement of the miss-subset, and the miss-subset in
    its original relative order when the lookups settle in index order.
    When [generate] returns, the returned sequence has one slot per
    prompt, every hit unchanged at its index and, at the original index
    of each prompt that missed, the result the backend answered at that
    prompt's position in its batch. *)
Theorem C1_backend_gets_misses_in_settling_order
    this prompts stop cbs settled w c :
  let key := llmStringKey (_identifyingParams this) (_llmType this) stop in
  let hits := List.map (fun p => cache_lookup c p key) prompts in
  let missing := missingPromptIndices hits settled in
  let sub := List.map (fun i => default "" (prompts !! i)) missing in
  let run := run_handle configure this cbs w in
  let rb := _generate this sub stop run (backend w) in
  let rw := generate configure this (Prompts prompts) stop cbs settled w in
  cache w = Some c ->
  Permutation settled (seq 0 (length prompts)) ->
  missing <> [] ->
  backend_calls (events_since w rw.2) = [sub]
  /\ Permutation sub (miss_subset c key prompts)
  /\ (settled = seq 0 (length prompts) -> sub = miss_subset c key prompts)
  /\ forall merged, rw.1 = Ok merged ->
       exists results,
         rb.1 = Ok results
         /\ length (generations merged) = length prompts
         /\ (forall i g, hits !! i = Some (Some g) ->
               generations merged !! i = Some (Some g))
         /\ (forall j i, missing !! j = Some i ->
               exists p,
                 prompts !! i = Some p /\ sub !! j = Some p
                 /\ generations merged !! i
                    = Some (generations results !! j)).
Proof.
  intros key hits missing sub run rb rw Hc Hperm Hm.
  destruct (generate_with_misses this prompts stop cbs settled w c Hc Hm)
    as [Hev Hres].
  fold key hits missing sub run rb rw in Hev, Hres.
  split; [|split; [|split]].
  - rewrite Hev, backend_calls_app, backend_calls_lookups, backend_calls_app,
      backend_calls_uncached.
    destruct rb.1; simpl; [by rewrite backend_calls_writes | done].
  - by apply missing_permutation.
  - intros ->. apply missing_in_order.
  - intros merged Hok. rewrite Hres in Hok.
    destruct rb.1 as [results|err]; [|discriminate].
    injection Hok as <-. exists results. split; [done|]. simpl.
    split; [by rewrite splice_length; unfold hits; rewrite length_map|].
    split.
    + intros i g Hi. by apply merged_at_hit.
    + intros j i Hj.
      assert (Hin : In i missing)
        by (apply list_elem_of_In; eapply list_elem_of_lookup_2; exact Hj).
      apply missing_spec in Hin as [_ Hnone].
      assert (Hi : i < length prompts).
      { apply lookup_lt_Some in Hnone. unfold hits in Hnone.
        by rewrite length_map in Hnone. }
      destruct (lookup_lt_is_Some_2 prompts i Hi) as [p Hp].
      exists p. split; [done|]. split.
      * unfold sub. rewrite list_lookup_fmap, Hj. simpl. by rewrite Hp.
      * by apply merged_at_miss.
Qed.

Lemma writes_from_None prompts key missing index results k v :
  (forall i, In i missing -> is_Some (prompts !! i)) ->
  In (None, k, v) (writes_from prompts key missing index results) ->
  length missing < index + length results.
Proof.
  intros Hrange. revert index.
  induction results as [|g rest IH]; intros index; simpl; [done|].
  intros [Heq|Hin].
  - injection Heq as Hnone _ _.
    destruct (missing !! index) as [i|] eqn:Hi.
    + destruct (Hrange i) as [p Hp].
      { apply list_elem_of_In. by eapply list_elem_of_lookup_2. }
      simpl in Hnone. congruence.
    + apply lookup_ge_None in Hi. lia.
  - apply IH in Hin. lia.
Qed.

(** C4 (amended).  In a [generate] call with a cache configured, every
    cache write is keyed by the serialized-parameters string and, when
    it names a prompt, by the text of a prompt of the batch that missed
    the lookup, so no write is ever for a prompt that was a hit; a write
    names no prompt only when the backend answered more results than it
    was given prompts.  When the call returns and the backend answered
    one result per prompt it was given, the written prompts are exactly
    the prompts that missed. *)
Theorem C4_cache_writes_only_for_misses this prompts stop cbs settled w c :
  let key := llmStringKey (_identifyingParams this) (_llmType this) stop in
  let hits := List.map (fun p => cache_lookup c p key) prompts in
  let missing := missingPromptIndices hits settled in
  let sub := List.map (fun i => default "" (prompts !! i)) missing in
  let run := run_handle configure this cbs w in
  let rb := _generate this sub stop run (backend w) in
  let rw := generate configure this (Prompts prompts) stop cbs settled w in
  let writes := cache_writes (events_since w rw.2) in
  cache w = Some c ->
  (forall p k v, In (p, k, v) writes ->
     k = key
     /\ forall s, p = Some s -> In s prompts /\ cache_lookup c s key = None)
  /\ (forall k v, In (None, k, v) writes ->
        exists results,
          rb.1 = Ok results /\ length sub < length (generations results))
  /\ (Permutation settled (seq 0 (length prompts)) ->
      forall merged, rw.1 = Ok merged ->
        (forall results, rb.1 = Ok results ->
           length (generations results) = length sub) ->
        Permutation (List.map (fun x => x.1.1) writes)
                    (List.map Some (miss_subset c key prompts))).
Proof.
  intros key hits missing sub run rb rw writes Hc.
  assert (Hrange : forall i, In i missing ->
            exists s, prompts !! i = Some s /\ cache_lookup c s key = None).
  { intros i Hi. apply missing_spec in Hi as [_ Hnone].
    unfold hits in Hnone. rewrite list_lookup_fmap in Hnone.
    destruct (prompts !! i) as [s|]; [|discriminate].
    exists s. split; [done|]. simpl in Hnone. by injection Hnone. }
  destruct (decide (missing = [])) as [Hm|Hm].
  { assert (Hw : writes = []).
    { subst writes rw.
      rewrite (generate_all_hits configure this prompts stop cbs settled w c
                 Hc Hm).
      simpl. by rewrite events_since_app, cache_writes_lookups. }
    rewrite Hw. split; [intros p k v []|]. split; [intros k v []|].
    intros Hperm _ _ _. simpl.
    pose proof (missing_permutation c key prompts settled Hperm) as Hp.
    fold hits missing in Hp. rewrite Hm in Hp. simpl in Hp.
    apply Permutation_nil in Hp. by rewrite Hp. }
  destruct (generate_with_misses this prompts stop cbs settled w c Hc Hm)
    as [Hev Hres].
  fold key hits missing sub run rb rw in Hev, Hres.
  assert (Hw : writes
               = match rb.1 with
                 | Ok results =>
                     writes_from prompts key missing 0 (generations results)
                 | Throw _ => []
                 end).
  { subst writes. rewrite Hev, cache_writes_app, cache_writes_lookups,
      cache_writes_app, cache_writes_uncached. simpl.
    destruct rb.1; [apply cache_writes_writes | done]. }
  rewrite Hw. clear Hw Hev.
  destruct rb.1 as [results|err].
  2:{ split; [intros p k v []|]. split; [intros k v []|].
      intros _ merged Hok. rewrite Hres in Hok. discriminate. }
  split; [|split].
  - intros p k v Hin. apply writes_from_In in Hin as [-> Hp].
    split; [done|]. intros s ->.
    destruct (Hp s eq_refl) as (i & Hi & Hs).
    destruct (Hrange i Hi) as (s' & Hs' & Hnone).
    assert (s' = s) as -> by congruence.
    split; [|done]. apply list_elem_of_In. by eapply list_elem_of_lookup_2.
  - intros k v Hin. exists results. split; [done|].
    apply writes_from_None in Hin.
    + unfold sub. rewrite length_map. lia.
    + intros i Hi. destruct (Hrange i Hi) as (s & Hs & _). by eexists.
  - intros Hperm merged _ Hcontract.
    pose proof (Hcontract results eq_refl) as Hlen.
    unfold sub in Hlen. rewrite length_map in Hlen.
    rewrite writes_from_zip by lia.
    rewrite writes_for_prompts; [|done|].
    + apply Permutation_map. by apply missing_permutation.
    + intros i Hi. destruct (Hrange i Hi) as (s & Hs & _).
      by apply lookup_lt_Some in Hs.
Qed.

End CachedPath.

(** * The cached path on concrete calls *)

Section CachedConcrete.

Import Demo Samples.

Local Open Scope list_scope.

Local Abbreviation Store := (gmap (option string * string) (list Generation)).

(** The second of three prompts is cached and the lookups settle in
    index order: the backend gets the first and the third, and the cached
    list stays in the second slot. *)
Lemma C1_witness :
  backend_calls (events_since (world (Some cache2)) first_call.2)
  = [["p1"; "p3"]]
  /\ generations first_result !! 1 = Some (Some cached2)
  /\ generations first_result !! 2
     = Some (Some [mkGeneration "p3/" None]).
Proof.
  destruct (@C1_backend_gets_misses_in_settling_order Store _ nat
              Demo.configure echo_llm batch None None [0; 1; 2]
              (world (Some cache2)) cache2)
    as (Hcalls & _ & _ & Hmerged).
  - reflexivity.
  - reflexivity.
  - vm_compute. discriminate.
  - split; [exact Hcalls|].
    destruct (Hmerged first_result) as (results & Hres & _ & Hhits & Hmiss).
    { vm_compute. reflexivity. }
    split.
    + apply Hhits. vm_compute. reflexivity.
    + destruct (Hmiss 1 2) as (p & _ & _ & Hslot);
        [vm_compute; reflexivity|].
      rewrite Hslot. vm_compute in Hres. injection Hres as <-.
      reflexivity.
Defined.

Lemma C4_witness :
  (forall p k v,
     In (p, k, v)
        (cache_writes (events_since (world (Some cache2)) first_call.2)) ->
     k = key0
     /\ forall s, p = Some s ->
          In s batch /\ cache_lookup cache2 s key0 = None)
  /\ Permutation
       (List.map (fun x => x.1.1)
          (cache_writes (events_since (world (Some cache2)) first_call.2)))
       (List.map Some (miss_subset cache2 key0 batch)).
Proof.
  destruct (@C4_cache_writes_only_for_misses Store _ nat Demo.configure
              echo_llm batch None None [0; 1; 2] (world (Some cache2))
              cache2)
    as (Hframe & _ & Hexact).
  - reflexivity.
  - split; [exact Hframe|].
    apply (Hexact (Permutation_refl _) first_result).
    + vm_compute. reflexivity.
    + intros results [= <-]. reflexivity.
Defined.

(** Three calls on which the claim fails, each on the batch of three
    prompts, all of which miss.  With the failing backend no update is
    performed at all.  With the short backend the call returns and one
    update is performed, for the first prompt only.  With the long
    backend a fourth update is performed, under no prompt. *)
Lemma C4_counterexample :
  let written (this : BaseLLM nat) :=
    List.map (fun x => x.1.1)
      (cache_writes
         (events_since (world (Some cache2))
            (generate Demo.configure this (Prompts batch) None None
               [0; 1; 2] (world (Some cache2))).2)) in
  let missed (this : BaseLLM nat) :=
    miss_subset cache2
      (llmStringKey (_identifyingParams this) (_llmType this) None) batch in
  (missed failing_llm = batch
   /\ written failing_llm = []
   /\ written failing_llm <> List.map Some (missed failing_llm))
  /\ (missed short_llm = batch
      /\ short_call.1 = Ok short_result
      /\ written short_llm = [Some "p1"])
  /\ (missed long_llm = batch
      /\ written long_llm = [Some "p1"; Some "p2"; Some "p3"; None]).
Proof.
  vm_compute. repeat split. discriminate.
Qed.

End CachedConcrete.
